(** * Hotlines directory: location resolution and hierarchical filtering

    A shallow embedding of the logic of [src/app/page.tsx]: the string
    normalisation, the region / province / city index built from the
    metadata, the location resolver with its fallback chain, the filter
    transitions, and the hotline filter with its ordering.

    JavaScript strings are sequences of UTF-16 code units.  The model
    covers the strings whose code units are all below 256 (Basic Latin and
    Latin-1 Supplement): one [ascii] per code unit.  On that alphabet
    [toLowerCase] works code unit by code unit and stays inside it. *)

From Stdlib Require Import ZArith NArith Ascii String.
From stdpp Require Import base list strings gmap sorting.

Local Open Scope Z_scope.

(** ** The string primitives of the platform *)

Module JS.

(** [WhiteSpace] and [LineTerminator] code points below 256: TAB, LF, VT,
    FF, CR, SPACE and NO-BREAK SPACE. *)
Definition isWhiteSpace (c : ascii) : bool :=
  let n := N_of_ascii c in
  ((9 <=? n) && (n <=? 13) || (n =? 32) || (n =? 160))%N.

(** Upper-case letters below 256 are A-Z and U+00C0..U+00DE without the
    multiplication sign U+00D7; each is 32 below its lower-case form. *)
Definition toLowerChar (c : ascii) : ascii :=
  let n := N_of_ascii c in
  if ((65 <=? n) && (n <=? 90)
      || (192 <=? n) && (n <=? 222) && negb (n =? 215))%N
  then ascii_of_N (n + 32) else c.

Fixpoint toLowerCase (s : string) : string :=
  match s with
  | EmptyString => EmptyString
  | String c s' => String (toLowerChar c) (toLowerCase s')
  end.

Fixpoint trimStart (s : string) : string :=
  match s with
  | EmptyString => EmptyString
  | String c s' => if isWhiteSpace c then trimStart s' else s
  end.

Fixpoint trimEnd (s : string) : string :=
  match s with
  | EmptyString => EmptyString
  | String c s' =>
      match trimEnd s' with
      | EmptyString => if isWhiteSpace c then EmptyString else String c EmptyString
      | t => String c t
      end
  end.

Definition trim (s : string) : string := trimEnd (trimStart s).

(** [s.includes(c)] for a one-character needle. *)
Fixpoint includes (c : ascii) (s : string) : bool :=
  match s with
  | EmptyString => false
  | String d s' => bool_decide (d = c) || includes c s'
  end.

(** [s.split(c)] for a one-character separator; the result is never
    empty. *)
Fixpoint split (c : ascii) (s : string) : list string :=
  match s with
  | EmptyString => [EmptyString]
  | String d s' =>
      if bool_decide (d = c) then EmptyString :: split c s'
      else match split c s' with
           | p :: ps => String d p :: ps
           | [] => [String d EmptyString]
           end
  end.

(** Truthiness of a string: every string but the empty one. *)
Definition truthy (s : string) : bool := negb (bool_decide (s = EmptyString)).

(** [Array.prototype.sort] with a comparator.  The language requires a
    stable sort; for a consistent comparator the result is the stable
    sorted arrangement, computed here by insertion from the right. *)
Section Array_sort.
Context {A : Type} (compareFn : A → A → Z).

Fixpoint sort_insert (x : A) (l : list A) : list A :=
  match l with
  | [] => [x]
  | y :: l' =>
      if compareFn x y <=? 0 then x :: y :: l' else y :: sort_insert x l'
  end.

Definition Array_sort (l : list A) : list A := foldr sort_insert [] l.
End Array_sort.

End JS.

(** String normalization utility for consistent comparisons. *)
Definition normalizeString (str : string) : string :=
  JS.trim (JS.toLowerCase str).

(** ** The datasets *)

(** [IMetadataResponse]: [{ metadata: { regions: [{ name, provinces:
    [{ province, cities }] }] } }]. *)
Record Province := { p_province : string; p_cities : list string }.
Record Region := { r_name : string; r_provinces : list Province }.
Record Metadata := { regions : list Region }.
Record IMetadataResponse := { metadata : Metadata }.

(** [THotlineCategory]: the keys of the rank table [sort]. *)
Inductive THotlineCategory :=
| police_hotlines
| medical_hotlines
| fire_hotlines
| government_hotlines
| utility_hotlines.

Global Instance THotlineCategory_eq_dec : EqDecision THotlineCategory.
Proof. solve_decision. Defined.

Record Hotline := {
  hotlineName : string;
  hotlineNumber : string;
  alternateNumbers : list string;
  category : THotlineCategory;
  city : string;
  province : string;
  regionName : string
}.

Record IHotlinesResponse := { hotlines : list Hotline }.

(** ** The filter state *)

Record FilterOptions := {
  f_region : string;
  f_province : string;
  f_city : string;
  f_category : string
}.

(** The argument of [updateLocation]. *)
Record Location := {
  loc_region : string;
  loc_province : string;
  loc_city : string
}.

Definition initialFilterOptions : FilterOptions :=
  {| f_region := ""; f_province := ""; f_city := "";
     f_category := "All Hotlines" |}.

(** [{ ...prev, ...location }] *)
Definition spreadLocation (prev : FilterOptions) (location : Location)
  : FilterOptions :=
  {| f_region := loc_region location;
     f_province := loc_province location;
     f_city := loc_city location;
     f_category := f_category prev |}.

(** ** The hierarchy index *)

Record RegionFilter := { rf_name : string; rf_key : string }.

Record ProvinceFilter := {
  pf_name : string;
  pf_regionName : string;
  pf_key : string
}.

Record LocationFilter := {
  lf_region : string;
  lf_province : string;
  lf_city : string;
  lf_key : string;
  lf_displayName : string
}.

Definition regionFilters (md : option IMetadataResponse) : list RegionFilter :=
  match md with
  | None => []
  | Some md =>
      (λ region, {| rf_name := r_name region;
                    rf_key := normalizeString (r_name region) |})
        <$> regions (metadata md)
  end.

Definition provinceFilters (md : option IMetadataResponse)
    (filterOptions : FilterOptions) : list ProvinceFilter :=
  match md with
  | None => []
  | Some md =>
      let allProvinces :=
        regions (metadata md) ≫= λ region,
          (λ province, {| pf_name := p_province province;
                          pf_regionName := r_name region;
                          pf_key := normalizeString (p_province province) |})
            <$> r_provinces region in
      if JS.truthy (f_region filterOptions) then
        filter (λ p, normalizeString (pf_regionName p)
                     = normalizeString (f_region filterOptions)) allProvinces
      else allProvinces
  end.

(** The entry of a city in the city list. *)
Definition cityEntry (region province city : string) : LocationFilter :=
  {| lf_region := region;
     lf_province := province;
     lf_city := city;
     lf_key := normalizeString (city +:+ "|" +:+ province);
     lf_displayName := city +:+ " (" +:+ province +:+ ")" |}.

Definition allCities (md : IMetadataResponse) : list LocationFilter :=
  (regions (metadata md) ≫= λ region,
     (λ province, (r_name region, p_province province, p_cities province))
       <$> r_provinces region)
  ≫= λ data, (λ city, cityEntry data.1.1 data.1.2 city) <$> data.2.

Definition locationFilters (md : option IMetadataResponse)
    (filterOptions : FilterOptions) : list LocationFilter :=
  match md with
  | None => []
  | Some md =>
      if JS.truthy (f_province filterOptions) then
        filter (λ c, normalizeString (lf_province c)
                     = normalizeString (f_province filterOptions))
               (allCities md)
      else if JS.truthy (f_region filterOptions) then
        filter (λ c, normalizeString (lf_region c)
                     = normalizeString (f_region filterOptions))
               (allCities md)
      else allCities md
  end.

(** [new Map()] filled by [forEach] and [map.set]: a later [set] of a key
    replaces the earlier one. *)
Definition provinceToRegionMap (md : option IMetadataResponse)
  : gmap string string :=
  match md with
  | None => ∅
  | Some md =>
      foldl (λ map region,
        foldl (λ map province,
                 <[normalizeString (p_province province)
                   := normalizeString (r_name region)]> map)
              map (r_provinces region))
        ∅ (regions (metadata md))
  end.

Record CityLocation := { cl_region : string; cl_province : string }.

Definition cityToLocationMap (md : option IMetadataResponse)
  : gmap string CityLocation :=
  match md with
  | None => ∅
  | Some md =>
      foldl (λ map region,
        foldl (λ map province,
          foldl (λ map city,
                   let cityKey :=
                     normalizeString (city +:+ "|" +:+ p_province province) in
                   <[cityKey := {| cl_region := normalizeString (r_name region);
                                   cl_province :=
                                     normalizeString (p_province province) |}]>
                     map)
                map (p_cities province))
              map (r_provinces region))
        ∅ (regions (metadata md))
  end.

(** ** Application state and persisted storage *)

(** The calls made on [localStorage], oldest first.  This trace is not
    program state: it records which storage operations a run performed. *)
Inductive StorageCall :=
| getItem (key : string)
| setItem (key value : string).

Record AppState := {
  isDetectingLocation : bool;
  locationError : option string;
  filterOptions : FilterOptions;
  regionSelectOpen : bool;
  provinceSelectOpen : bool;
  citySelectOpen : bool;
  localStorage : gmap string string;
  storageCalls : list StorageCall
}.

Definition initialState (storage : gmap string string) : AppState :=
  {| isDetectingLocation := true;
     locationError := None;
     filterOptions := initialFilterOptions;
     regionSelectOpen := false;
     provinceSelectOpen := false;
     citySelectOpen := false;
     localStorage := storage;
     storageCalls := [] |}.

Definition setFilterOptions (f : FilterOptions → FilterOptions)
    (st : AppState) : AppState :=
  {| isDetectingLocation := isDetectingLocation st;
     locationError := locationError st;
     filterOptions := f (filterOptions st);
     regionSelectOpen := regionSelectOpen st;
     provinceSelectOpen := provinceSelectOpen st;
     citySelectOpen := citySelectOpen st;
     localStorage := localStorage st;
     storageCalls := storageCalls st |}.

Definition setIsDetectingLocation (b : bool) (st : AppState) : AppState :=
  {| isDetectingLocation := b;
     locationError := locationError st;
     filterOptions := filterOptions st;
     regionSelectOpen := regionSelectOpen st;
     provinceSelectOpen := provinceSelectOpen st;
     citySelectOpen := citySelectOpen st;
     localStorage := localStorage st;
     storageCalls := storageCalls st |}.

Definition setLocationError (e : option string) (st : AppState) : AppState :=
  {| isDetectingLocation := isDetectingLocation st;
     locationError := e;
     filterOptions := filterOptions st;
     regionSelectOpen := regionSelectOpen st;
     provinceSelectOpen := provinceSelectOpen st;
     citySelectOpen := citySelectOpen st;
     localStorage := localStorage st;
     storageCalls := storageCalls st |}.

Definition setRegionSelectOpen (b : bool) (st : AppState) : AppState :=
  {| isDetectingLocation := isDetectingLocation st;
     locationError := locationError st;
     filterOptions := filterOptions st;
     regionSelectOpen := b;
     provinceSelectOpen := provinceSelectOpen st;
     citySelectOpen := citySelectOpen st;
     localStorage := localStorage st;
     storageCalls := storageCalls st |}.

Definition setProvinceSelectOpen (b : bool) (st : AppState) : AppState :=
  {| isDetectingLocation := isDetectingLocation st;
     locationError := locationError st;
     filterOptions := filterOptions st;
     regionSelectOpen := regionSelectOpen st;
     provinceSelectOpen := b;
     citySelectOpen := citySelectOpen st;
     localStorage := localStorage st;
     storageCalls := storageCalls st |}.

Definition setCitySelectOpen (b : bool) (st : AppState) : AppState :=
  {| isDetectingLocation := isDetectingLocation st;
     locationError := locationError st;
     filterOptions := filterOptions st;
     regionSelectOpen := regionSelectOpen st;
     provinceSelectOpen := provinceSelectOpen st;
     citySelectOpen := b;
     localStorage := localStorage st;
     storageCalls := storageCalls st |}.

Definition localStorage_setItem (key value : string) (st : AppState)
  : AppState :=
  {| isDetectingLocation := isDetectingLocation st;
     locationError := locationError st;
     filterOptions := filterOptions st;
     regionSelectOpen := regionSelectOpen st;
     provinceSelectOpen := provinceSelectOpen st;
     citySelectOpen := citySelectOpen st;
     localStorage := <[key := value]> (localStorage st);
     storageCalls := storageCalls st ++ [setItem key value] |}.

Definition localStorage_getItem (key : string) (st : AppState)
  : option string * AppState :=
  (localStorage st !! key,
   {| isDetectingLocation := isDetectingLocation st;
      locationError := locationError st;
      filterOptions := filterOptions st;
      regionSelectOpen := regionSelectOpen st;
      provinceSelectOpen := provinceSelectOpen st;
      citySelectOpen := citySelectOpen st;
      localStorage := localStorage st;
      storageCalls := storageCalls st ++ [getItem key] |}).

(** *** [JSON.stringify] of a location *)

Definition hexDigit (n : N) : ascii :=
  if (n <? 10)%N then ascii_of_N (48 + n) else ascii_of_N (87 + n).

Definition doubleQuote : ascii := ascii_of_N 34.
Definition backslash : ascii := ascii_of_N 92.

(** [QuoteJSONString] on one code unit: the two-character escapes, [\u00xx]
    for the other control characters, the code unit itself otherwise. *)
Definition quoteJSONChar (c : ascii) : string :=
  let n := N_of_ascii c in
  if (n =? 8)%N then String backslash "b"
  else if (n =? 9)%N then String backslash "t"
  else if (n =? 10)%N then String backslash "n"
  else if (n =? 12)%N then String backslash "f"
  else if (n =? 13)%N then String backslash "r"
  else if (n =? 34)%N then String backslash (String doubleQuote "")
  else if (n =? 92)%N then String backslash (String backslash "")
  else if (n <? 32)%N then
    String backslash
      ("u00" +:+ String (hexDigit (n / 16)) (String (hexDigit (n mod 16)) ""))
  else String c "".

Fixpoint quoteJSONBody (s : string) : string :=
  match s with
  | EmptyString => ""
  | String c s' => quoteJSONChar c +:+ quoteJSONBody s'
  end.

Definition quoteJSONString (s : string) : string :=
  String doubleQuote (quoteJSONBody s +:+ String doubleQuote "").

Definition jsonMember (key value : string) : string :=
  quoteJSONString key +:+ ":" +:+ quoteJSONString value.

Definition JSON_stringify (location : Location) : string :=
  "{" +:+ jsonMember "region" (loc_region location)
  +:+ "," +:+ jsonMember "province" (loc_province location)
  +:+ "," +:+ jsonMember "city" (loc_city location) +:+ "}".

(** Helper function to update location filters and localStorage. *)
Definition updateLocation (location : Location) (st : AppState) : AppState :=
  localStorage_setItem "lastSavedLocation" (JSON_stringify location)
    (setFilterOptions (λ prev, spreadLocation prev location) st).

(** ** The filter transitions *)

Definition handleRegionChange (regionKey : string) (st : AppState) : AppState :=
  setRegionSelectOpen false
    (updateLocation
       {| loc_region := regionKey; loc_province := ""; loc_city := "" |} st).

(** [provinceToRegionMap.get(provinceKey) || ''] *)
Definition handleProvinceChange (md : option IMetadataResponse)
    (provinceKey : string) (st : AppState) : AppState :=
  let foundRegion :=
    match provinceToRegionMap md !! provinceKey with
    | Some region => if JS.truthy region then region else ""
    | None => ""
    end in
  setProvinceSelectOpen false
    (updateLocation
       {| loc_region := foundRegion; loc_province := provinceKey;
          loc_city := "" |} st).

Definition handleCityChange (md : option IMetadataResponse)
    (cityKey : string) (st : AppState) : AppState :=
  match cityToLocationMap md !! cityKey with
  | None => setCitySelectOpen false st
  | Some locationData =>
      setCitySelectOpen false
        (updateLocation
           {| loc_region := cl_region locationData;
              loc_province := cl_province locationData;
              loc_city := cityKey |} st)
  end.

Definition handleClearRegion (st : AppState) : AppState :=
  updateLocation {| loc_region := ""; loc_province := ""; loc_city := "" |} st.

Definition handleClearProvince (st : AppState) : AppState :=
  updateLocation
    {| loc_region := f_region (filterOptions st); loc_province := "";
       loc_city := "" |} st.

Definition handleClearCity (st : AppState) : AppState :=
  updateLocation
    {| loc_region := f_region (filterOptions st);
       loc_province := f_province (filterOptions st);
       loc_city := "" |} st.

(** *** The category buttons *)

Definition hotlineTypes : list string :=
  ["All Hotlines"; "Emergency"; "Medical"; "Government"; "Utility"].

Definition hotlineCategoryMap : gmap string string :=
  list_to_map
    [("All Hotlines", "All Hotlines");
     ("Emergency", "Emergency Hotlines");
     ("Medical", "Medical Hotlines");
     ("Government", "Government Hotlines");
     ("Utility", "Utility Hotlines")].

Definition setCategory (c : string) (prev : FilterOptions) : FilterOptions :=
  {| f_region := f_region prev; f_province := f_province prev;
     f_city := f_city prev; f_category := c |}.

(** [onClick] of the button labelled [hotlineType]:
    [category: hotlineCategoryMap(hotlineType) || 'all_hotlines']. *)
Definition onCategoryClick (hotlineType : string) (st : AppState) : AppState :=
  setFilterOptions
    (setCategory
       match hotlineCategoryMap !! hotlineType with
       | Some c => if JS.truthy c then c else "all_hotlines"
       | None => "all_hotlines"
       end) st.

(** [onClick] of the button [View All Hotlines]. *)
Definition onViewAllHotlines (st : AppState) : AppState :=
  setFilterOptions (setCategory "All Hotlines") st.

(** The category values a session can reach: the initial one and the ones
    the buttons set. *)
Definition reachableCategories : list string :=
  f_category initialFilterOptions
  :: f_category (filterOptions (onViewAllHotlines (initialState ∅)))
  :: ((λ hotlineType,
         f_category (filterOptions (onCategoryClick hotlineType (initialState ∅))))
      <$> hotlineTypes).

(** ** The location resolver *)

(** What [navigator.geolocation] answers.  The coordinates only travel
    into the query string of the reverse-geocoding request, so a position
    carries no data here. *)
Inductive GeoResult :=
| GeolocationUnsupported
| PositionError (code : N)
| Position.

Definition PERMISSION_DENIED : N := 1.
Definition POSITION_UNAVAILABLE : N := 2.
Definition TIMEOUT : N := 3.

(** What [fetch('/api/reverse-geocode?...')] answers for the position: the
    promise rejects, or a response arrives whose body, read only when
    [ok], is [{ city: string }]. *)
Inductive FetchResult :=
| FetchRejected
| HttpResponse (ok : bool) (data_city : string).

(** [JSON.parse], seen at the type the caller reads it at: [null], or a
    value with its [region], [province] and [city] properties (a string
    each, or absent). *)
Inductive Parsed :=
| ParsedNull
| ParsedValue (region province city : option string).

(** How a run of [getLocation] ends. *)
Inductive Outcome :=
| Settled (st : AppState)
| Rejected (st : AppState)
| UpdaterThrows (st : AppState).

(** Template interpolation of a value that may be [undefined]. *)
Definition interpolate (v : option string) : string :=
  match v with Some s => s | None => "undefined" end.

(** [x || ''] on a property that may be absent. *)
Definition orEmpty (v : option string) : string :=
  match v with Some s => if JS.truthy s then s else "" | None => "" end.

(** The message shown for a geolocation error code. *)
Definition geolocationErrorMessage (code : N) : string :=
  if bool_decide (code = PERMISSION_DENIED) then
    "Location access was denied. Enable location permissions to show hotlines for your current location."
  else if bool_decide (code = POSITION_UNAVAILABLE) then
    "Location information is unavailable."
  else if bool_decide (code = TIMEOUT) then
    "Location request timed out."
  else "Could not detect your location".

(** [getCoords]: [true] when the promise resolves, [false] when it
    rejects. *)
Definition getCoords (geo : GeoResult) (st : AppState) : bool * AppState :=
  match geo with
  | GeolocationUnsupported =>
      (false,
       setLocationError
         (Some "Your browser does not support location detection") st)
  | PositionError code =>
      (false, setLocationError (Some (geolocationErrorMessage code)) st)
  | Position => (true, st)
  end.

(** Helper to get default location from metadata (first region -> province
    -> city).  [None] is the [TypeError] of reading a property of
    [undefined]: no first region, or no first province.  A missing first
    city is interpolated as the text [undefined]. *)
Definition getDefaultLocation (md : IMetadataResponse) : option Location :=
  region0 ← regions (metadata md) !! 0%nat;
  province0 ← r_provinces region0 !! 0%nat;
  let defaultRegion := r_name region0 in
  let defaultProvince := p_province province0 in
  let defaultCity := p_cities province0 !! 0%nat in
  Some {| loc_region := normalizeString defaultRegion;
          loc_province := normalizeString defaultProvince;
          loc_city :=
            normalizeString
              (interpolate defaultCity +:+ "|" +:+ defaultProvince) |}.

(** [array.find(p)] *)
Definition Array_find {A} (P : A → Prop) `{∀ x, Decision (P x)}
    (l : list A) : option A :=
  snd <$> list_find P l.

(** A [for ... of] loop whose body may [return]: the first iteration that
    returns decides. *)
Fixpoint forOfReturn {A B} (body : A → option B) (l : list A) : option B :=
  match l with
  | [] => None
  | x :: l' =>
      match body x with
      | Some r => Some r
      | None => forOfReturn body l'
      end
  end.

(** Helper to find location from metadata. *)
Definition findLocationInMetadata (md : IMetadataResponse)
    (cityName : string) : option Location :=
  let normalizedCity := normalizeString cityName in
  forOfReturn (λ region,
    forOfReturn (λ province,
      match Array_find (λ c, normalizeString c = normalizedCity)
                       (p_cities province) with
      | Some cityMatch =>
          if JS.truthy cityMatch then
            Some {| loc_region := normalizeString (r_name region);
                    loc_province := normalizeString (p_province province);
                    loc_city :=
                      normalizeString
                        (cityMatch +:+ "|" +:+ p_province province) |}
          else None
      | None => None
      end) (r_provinces region)) (regions (metadata md)).

Section Resolver.

(** [JSON.parse] is the platform's; [None] is its [SyntaxError]. *)
Variable JSON_parse : string → option Parsed.

(** The [try] block of [getLocation]: [inl] when it runs to its end,
    [inr] when something in it throws. *)
Definition getLocation_try (md : IMetadataResponse) (geo : GeoResult)
    (response : FetchResult) (st : AppState) : AppState + AppState :=
  match getCoords geo st with
  | (false, st) => inr st
  | (true, st) =>
      match response with
      | FetchRejected => inr st
      | HttpResponse ok data_city =>
          if negb ok then inr st
          else
            match findLocationInMetadata md data_city with
            | Some matchedLocation =>
                inl (setIsDetectingLocation false
                       (updateLocation matchedLocation st))
            | None =>
                match getDefaultLocation md with
                | Some defaultLocation =>
                    inl (setIsDetectingLocation false
                           (updateLocation defaultLocation st))
                | None => inr st
                end
            end
      end
  end.

(** The [catch] block of [getLocation].  A stored [null] parses, and the
    state updater then reads a property of [null]: that [TypeError] is
    raised when the update is applied, outside the inner [try]. *)
Definition getLocation_catch (md : IMetadataResponse) (st : AppState)
  : Outcome :=
  let '(stored, st) := localStorage_getItem "lastSavedLocation" st in
  let useDefaults :=
    match getDefaultLocation md with
    | Some defaultLocation =>
        Settled (setIsDetectingLocation false
                   (updateLocation defaultLocation st))
    | None => Rejected st
    end in
  match stored with
  | Some stored =>
      if JS.truthy stored then
        match JSON_parse stored with
        | Some (ParsedValue region province city) =>
            Settled
              (setIsDetectingLocation false
                 (setFilterOptions
                    (λ prev, {| f_region := orEmpty region;
                                f_province := orEmpty province;
                                f_city := orEmpty city;
                                f_category := f_category prev |}) st))
        | Some ParsedNull => UpdaterThrows (setIsDetectingLocation false st)
        | None =>
            Settled
              (setIsDetectingLocation false
                 (setFilterOptions
                    (λ prev, {| f_region := f_region prev;
                                f_province := f_province prev;
                                f_city := normalizeString stored;
                                f_category := f_category prev |}) st))
        end
      else useDefaults
  | None => useDefaults
  end.

Definition getLocation (md : IMetadataResponse) (geo : GeoResult)
    (response : FetchResult) (st : AppState) : Outcome :=
  match getLocation_try md geo response st with
  | inl st => Settled st
  | inr st => getLocation_catch md st
  end.

(** The effect that runs when [metadata] changes. *)
Definition detectLocation (md : option IMetadataResponse) (geo : GeoResult)
    (response : FetchResult) (st : AppState) : Outcome :=
  match md with
  | None => Settled st
  | Some md => getLocation md geo response st
  end.

End Resolver.

(** The state a run of [getLocation] leaves. *)
Definition outcomeState (o : Outcome) : AppState :=
  match o with
  | Settled st | Rejected st | UpdaterThrows st => st
  end.

(** Geolocation failed, or the reverse-geocoding request was rejected or
    answered with a non-success status. *)
Definition liveDetectionFailed (geo : GeoResult) (response : FetchResult)
  : Prop :=
  match geo, response with
  | Position, HttpResponse true _ => False
  | _, _ => True
  end.

(** ** The hotline filter *)

Record ExtractedLocation := {
  el_city : string;
  el_province : option string
}.

(** [const (city, province) = filterValue.split('|')]: the first two
    parts; [split] never returns an empty array. *)
Definition extractLocationFromFilter (filterValue : string)
  : ExtractedLocation :=
  if JS.includes "|" filterValue then
    match JS.split "|" filterValue with
    | city :: rest => {| el_city := city; el_province := head rest |}
    | [] => {| el_city := filterValue; el_province := None |}
    end
  else {| el_city := filterValue; el_province := None |}.

(** The callback of the hierarchical filter: region -> province -> city. *)
Definition locationCallback (filterOptions : FilterOptions)
    (hotline : Hotline) : bool :=
  if JS.truthy (f_region filterOptions)
     && negb (bool_decide (normalizeString (regionName hotline)
                           = normalizeString (f_region filterOptions)))
  then false
  else if JS.truthy (f_province filterOptions)
          && negb (bool_decide (normalizeString (province hotline)
                                = normalizeString (f_province filterOptions)))
  then false
  else if JS.truthy (f_city filterOptions) then
    let locationFromFilter := extractLocationFromFilter (f_city filterOptions) in
    let cityOnly :=
      bool_decide (normalizeString (city hotline)
                   = normalizeString (el_city locationFromFilter)) in
    match el_province locationFromFilter with
    | Some filterProvince =>
        if JS.truthy filterProvince then
          bool_decide (normalizeString (city hotline)
                       = normalizeString (el_city locationFromFilter))
          && bool_decide (normalizeString (province hotline)
                          = normalizeString filterProvince)
        else cityOnly
    | None => cityOnly
    end
  else true.

Definition selectedHotlines (hs : list Hotline)
    (filterOptions : FilterOptions) : list Hotline :=
  filter (λ hotline, locationCallback filterOptions hotline) hs.

Definition hotlineTypeMap : gmap string (list THotlineCategory) :=
  list_to_map
    [("Emergency Hotlines", [police_hotlines; fire_hotlines]);
     ("Medical Hotlines", [medical_hotlines]);
     ("Government Hotlines", [government_hotlines]);
     ("Utility Hotlines", [utility_hotlines])].

(** [array.filter(callback)] where a call of the callback may throw
    ([None]); the first throw ends the filtering. *)
Fixpoint filterThrowing {A} (callback : A → option bool) (l : list A)
  : option (list A) :=
  match l with
  | [] => Some []
  | x :: l' =>
      keep ← callback x;
      rest ← filterThrowing callback l';
      Some (if keep : bool then x :: rest else rest)
  end.

(** The category step.  Its callback reads [hotlineTypeMap(category)] for
    each hotline; a category without an entry makes that read [undefined]
    and the call of [includes] on it throws (so do the property names an
    object literal inherits, whose values have no [includes]). *)
Definition categorySelected (filterOptions : FilterOptions)
    (selected : list Hotline) : option (list Hotline) :=
  if bool_decide (f_category filterOptions ≠ "All Hotlines") then
    filterThrowing
      (λ hotline,
         categories ← hotlineTypeMap !! f_category filterOptions;
         Some (bool_decide (category hotline ∈ categories)))
      selected
  else Some selected.

(** The rank table. *)
Definition sort (c : THotlineCategory) : Z :=
  match c with
  | police_hotlines => 0
  | medical_hotlines => 1
  | fire_hotlines => 2
  | government_hotlines => 3
  | utility_hotlines => 4
  end.

Section FilterEngine.

(** [localeCompare(_, 'en', { sensitivity: 'base' })] is the platform's
    collation: it compares the collation keys of the two strings, byte
    by byte.  [sortKey] is the key of the English collator at base
    strength, under which strings that differ only in case or accents
    have the same key. *)
Variable sortKey : string → string.

Definition localeCompare (a b : string) : Z :=
  match String.compare (sortKey a) (sortKey b) with
  | Lt => -1
  | Eq => 0
  | Gt => 1
  end.

(** The comparator passed to [sort]. *)
Definition compareHotlines (a b : Hotline) : Z :=
  let categoryDiff := sort (category a) - sort (category b) in
  if bool_decide (categoryDiff ≠ 0) then categoryDiff
  else localeCompare (hotlineName a) (hotlineName b).

(** The list the page renders; [None] when the category step throws. *)
Definition sortedSelectedHotlines (hs : list Hotline)
    (filterOptions : FilterOptions) : option (list Hotline) :=
  JS.Array_sort compareHotlines
    <$> categorySelected filterOptions (selectedHotlines hs filterOptions).

End FilterEngine.

(** What the category step keeps of a hotline when every lookup it makes
    is defined. *)
Definition categoryKeeps (filterOptions : FilterOptions) (hotline : Hotline)
  : bool :=
  if bool_decide (f_category filterOptions ≠ "All Hotlines") then
    match hotlineTypeMap !! f_category filterOptions with
    | Some categories => bool_decide (category hotline ∈ categories)
    | None => false
    end
  else true.

(** What both filtering steps keep. *)
Definition kept (filterOptions : FilterOptions) (hotline : Hotline) : bool :=
  locationCallback filterOptions hotline && categoryKeeps filterOptions hotline.

(** [a] may stand before [b]: a lower category rank, or the same category
    and a name that does not compare greater. *)
Definition inOrder (sortKey : string → string) (a b : Hotline) : Prop :=
  sort (category a) < sort (category b)
  ∨ (category a = category b
     ∧ localeCompare sortKey (hotlineName a) (hotlineName b) ≤ 0).

(** [a]'s name does not compare greater than [b]'s. *)
Definition nameOrder (sortKey : string → string) (a b : Hotline) : Prop :=
  localeCompare sortKey (hotlineName a) (hotlineName b) ≤ 0.

(** The region and province conditions of the hierarchical filter. *)
Definition regionProvinceOk (filterOptions : FilterOptions)
    (hotline : Hotline) : Prop :=
  (f_region filterOptions = ""
   ∨ normalizeString (regionName hotline)
     = normalizeString (f_region filterOptions))
  ∧ (f_province filterOptions = ""
     ∨ normalizeString (province hotline)
       = normalizeString (f_province filterOptions)).

(** ** Views used in the proofs *)

(** [map.set] of every pair of a list, first to last. *)
Definition setAll {V} (m : gmap string V) (l : list (string * V))
  : gmap string V :=
  foldl (λ m kv, <[kv.1 := kv.2]> m) m l.

(** The [set] calls that fill [provinceToRegionMap], in order. *)
Definition provincePairs (md : IMetadataResponse) : list (string * string) :=
  regions (metadata md) ≫= λ region,
    (λ province, (normalizeString (p_province province),
                  normalizeString (r_name region)))
      <$> r_provinces region.

(** The [set] calls that fill [cityToLocationMap], in order. *)
Definition cityPairs (md : IMetadataResponse)
  : list (string * CityLocation) :=
  regions (metadata md) ≫= λ region,
    r_provinces region ≫= λ province,
      (λ city, (normalizeString (city +:+ "|" +:+ p_province province),
                {| cl_region := normalizeString (r_name region);
                   cl_province := normalizeString (p_province province) |}))
        <$> p_cities province.

(** [city] is listed under [province], itself listed under [region]. *)
Definition owns (md : IMetadataResponse) (region : Region)
    (province : Province) (city : string) : Prop :=
  region ∈ regions (metadata md)
  ∧ province ∈ r_provinces region
  ∧ city ∈ p_cities province.

(** The key the code gives a city: lower-cased, with the blanks before the
    city and after the province removed. *)
Definition builtKey (city province : string) : string :=
  JS.trimStart (JS.toLowerCase city) +:+ "|"
  +:+ JS.trimEnd (JS.toLowerCase province).

(** ** The specification's readings *)

(** The set of hotline categories each category filter denotes, as the
    specification lists them. *)
Definition denotedCategories_spec (categoryFilter : string)
  : option (list THotlineCategory) :=
  if bool_decide (categoryFilter = "Emergency Hotlines") then
    Some [police_hotlines; fire_hotlines]
  else if bool_decide (categoryFilter = "Medical Hotlines") then
    Some [medical_hotlines]
  else if bool_decide (categoryFilter = "Government Hotlines") then
    Some [government_hotlines]
  else if bool_decide (categoryFilter = "Utility Hotlines") then
    Some [utility_hotlines]
  else None.

(** The five category values the specification names. *)
Definition namedCategories_spec : list string :=
  ["All Hotlines"; "Emergency Hotlines"; "Medical Hotlines";
   "Government Hotlines"; "Utility Hotlines"].

(** The composite city key as the specification words it:
    [normalize(city) + "|" + normalize(province)]. *)
Definition compositeKey_spec (city province : string) : string :=
  normalizeString city +:+ "|" +:+ normalizeString province.

(** The specification's province-to-region lookup: the first region, in
    dataset order, that lists a province of that normalized name. *)
Definition provinceToRegion_first_spec (md : IMetadataResponse)
    (provinceKey : string) : option string :=
  (λ found, normalizeString (r_name found.2))
    <$> list_find
          (λ region, Exists (λ province,
                               normalizeString (p_province province)
                               = provinceKey) (r_provinces region))
          (regions (metadata md)).

(** ** Example data *)

(** Region NCR, province Metro Manila, cities Manila and Quezon City. *)
Definition ncrMetadata : IMetadataResponse :=
  {| metadata :=
       {| regions :=
            [{| r_name := "NCR";
                r_provinces :=
                  [{| p_province := "Metro Manila";
                      p_cities := ["Manila"; "Quezon City"] |}] |}] |} |}.

(** A dataset whose city name ends with a blank. *)
Definition paddedMetadata : IMetadataResponse :=
  {| metadata :=
       {| regions :=
            [{| r_name := "NCR";
                r_provinces :=
                  [{| p_province := "Metro Manila";
                      p_cities := ["Manila "] |}] |}] |} |}.

(** A dataset that lists the province name Shared under two regions. *)
Definition dupMetadata : IMetadataResponse :=
  {| metadata :=
       {| regions :=
            [{| r_name := "Region A";
                r_provinces :=
                  [{| p_province := "Shared"; p_cities := ["Alpha"] |}] |};
             {| r_name := "Region B";
                r_provinces :=
                  [{| p_province := "Shared"; p_cities := ["Beta"] |}] |}] |} |}.


(** A state in which a city of [ncrMetadata] is selected. *)
Definition manilaSelected : AppState :=
  handleCityChange (Some ncrMetadata) "manila|metro manila" (initialState ∅).

(** A reader for the text [updateLocation] stores - an object with the
    members [region], [province] and [city], in this order, whose strings
    need no escape - that reports a syntax error on every other text.  It
    stands for [JSON.parse] in the examples. *)
Fixpoint stripPrefix (prefix s : string) : option string :=
  match prefix, s with
  | EmptyString, _ => Some s
  | String c prefix', String d s' =>
      if bool_decide (c = d) then stripPrefix prefix' s' else None
  | String _ _, EmptyString => None
  end.

Fixpoint readUnescaped (s : string) : option (string * string) :=
  match s with
  | EmptyString => None
  | String c s' =>
      if bool_decide (c = doubleQuote) then Some ("", s')
      else if bool_decide (c = backslash) || (N_of_ascii c <? 32)%N then None
      else '(body, rest) ← readUnescaped s'; Some (String c body, rest)
  end.

Definition readQuoted (s : string) : option (string * string) :=
  s ← stripPrefix (String doubleQuote "") s; readUnescaped s.

Definition readStoredLocation (s : string) : option Parsed :=
  s ← stripPrefix ("{" +:+ quoteJSONString "region" +:+ ":") s;
  '(region, s) ← readQuoted s;
  s ← stripPrefix ("," +:+ quoteJSONString "province" +:+ ":") s;
  '(province, s) ← readQuoted s;
  s ← stripPrefix ("," +:+ quoteJSONString "city" +:+ ":") s;
  '(city, s) ← readQuoted s;
  if bool_decide (s = "}") then
    Some (ParsedValue (Some region) (Some province) (Some city))
  else None.

(** A first run on a device that stored the bare city name of an earlier
    version. *)
Definition legacyState : AppState :=
  initialState {["lastSavedLocation" := "manila"]}.

(** A collation key for the examples: the lower-cased string, which
    ignores case as base strength does. *)
Definition caselessKey (s : string) : string := JS.toLowerCase s.

Definition exampleHotline (name : string) (c : THotlineCategory)
    (cityName provinceName : string) : Hotline :=
  {| hotlineName := name; hotlineNumber := "117"; alternateNumbers := [];
     category := c; city := cityName; province := provinceName;
     regionName := "NCR" |}.

(** The two hotlines of scenario 3: the same city name in two provinces. *)
Definition manilaHotline : Hotline :=
  exampleHotline "Manila Police" police_hotlines "Manila" "Metro Manila".
Definition cebuHotline : Hotline :=
  exampleHotline "Manila Fire" fire_hotlines "Manila" "Metro Cebu".

(** Two police hotlines whose names differ only in case. *)
Definition upperHotline : Hotline :=
  exampleHotline "PNP" police_hotlines "Manila" "Metro Manila".
Definition lowerHotline : Hotline :=
  exampleHotline "pnp" police_hotlines "Manila" "Metro Manila".

Definition cityFilter (cityKey : string) : FilterOptions :=
  {| f_region := ""; f_province := ""; f_city := cityKey;
     f_category := "All Hotlines" |}.


(** ** What the selectors and the page show *)

(** The text of the region selector:
    [regionFilters.find(r => r.key === filterOptions.region)?.name
     || 'Select Region'] when a region is set. *)
Definition regionLabel (md : option IMetadataResponse)
    (filterOptions : FilterOptions) : string :=
  if bool_decide (f_region filterOptions ≠ "") then
    match Array_find (λ r, rf_key r = f_region filterOptions)
                     (regionFilters md) with
    | Some r => if JS.truthy (rf_name r) then rf_name r else "Select Region"
    | None => "Select Region"
    end
  else "Select Region".

(** The text of the province selector. *)
Definition provinceLabel (md : option IMetadataResponse)
    (filterOptions : FilterOptions) : string :=
  if bool_decide (f_province filterOptions ≠ "") then
    match Array_find (λ p, pf_key p = f_province filterOptions)
                     (provinceFilters md filterOptions) with
    | Some p => if JS.truthy (pf_name p) then pf_name p else "Select Province"
    | None => "Select Province"
    end
  else "Select Province".

(** The text of the city selector; the city of the filter is normalized
    before it is compared with the keys. *)
Definition cityLabel (md : option IMetadataResponse)
    (filterOptions : FilterOptions) : string :=
  if bool_decide (f_city filterOptions ≠ "") then
    match Array_find (λ c, lf_key c = normalizeString (f_city filterOptions))
                     (locationFilters md filterOptions) with
    | Some c =>
        if JS.truthy (lf_displayName c) then lf_displayName c
        else "Select City"
    | None => "Select City"
    end
  else "Select City".

(** The location scope indicator: shown when no level is set, with the
    number of hotlines rendered. *)
Definition scopeIndicator (filterOptions : FilterOptions)
    (sorted : list Hotline) : option nat :=
  if negb (JS.truthy (f_region filterOptions))
     && negb (JS.truthy (f_province filterOptions))
     && negb (JS.truthy (f_city filterOptions))
  then Some (length sorted) else None.

(** The page shows the loading spinner until both datasets are loaded and
    detection has ended. *)
Definition showsLoading (hs : option IHotlinesResponse)
    (md : option IMetadataResponse) (st : AppState) : bool :=
  negb (bool_decide (is_Some hs)) || negb (bool_decide (is_Some md))
  || isDetectingLocation st.

(** The filter with one level kept and the other two unset. *)
Definition onlyRegion (filterOptions : FilterOptions) : FilterOptions :=
  {| f_region := f_region filterOptions; f_province := ""; f_city := "";
     f_category := f_category filterOptions |}.
Definition onlyProvince (filterOptions : FilterOptions) : FilterOptions :=
  {| f_region := ""; f_province := f_province filterOptions; f_city := "";
     f_category := f_category filterOptions |}.
Definition onlyCity (filterOptions : FilterOptions) : FilterOptions :=
  {| f_region := ""; f_province := ""; f_city := f_city filterOptions;
     f_category := f_category filterOptions |}.

(** The location part of the filter. *)
Definition locationOf (filterOptions : FilterOptions) : Location :=
  {| loc_region := f_region filterOptions;
     loc_province := f_province filterOptions;
     loc_city := f_city filterOptions |}.

(** The persisted location is the location of the filter. *)
Definition storedInSync (st : AppState) : Prop :=
  localStorage st !! "lastSavedLocation"
  = Some (JSON_stringify (locationOf (filterOptions st))).

(** A transition from [st] to [st'] made one storage call: the write of
    the location of the new filter. *)
Definition persistedBy (st st' : AppState) : Prop :=
  storedInSync st'
  ∧ storageCalls st'
    = storageCalls st
      ++ [setItem "lastSavedLocation"
            (JSON_stringify (locationOf (filterOptions st')))].

(** ** The precache manifest and the service worker's precache list *)

Section PrecacheManifest.

(** [crypto.createHash('md5').update(content).digest('hex')] and
    [path.join] are the platform's. *)
Variable md5hex : string → string.
Variable path_join : string → string → string.

(** The files of the disk, by path. *)
Implicit Types fs : gmap string string.

(** Generate MD5 hash for a file; [None] is the error of reading a file
    that does not exist. *)
Definition generateFileHash fs (filePath : string) : option string :=
  md5hex <$> fs !! filePath.

Definition filesToCache : list string :=
  ["/data/metadata.json"; "/data/hotlines.json";
   "/bettergov-horizontal-logo.png"].

(** The body of the [forEach] over the files to cache: a missing file
    gets [null] ([None]), an existing one its hash.  The outer [None] is
    an exception. *)
Definition manifestStep fs (publicDir : string)
    (manifest : option (gmap string (option string))) (fileUrl : string)
  : option (gmap string (option string)) :=
  manifest ← manifest;
  let filePath := path_join publicDir fileUrl in
  if bool_decide (is_Some (fs !! filePath)) then
    hash ← generateFileHash fs filePath;
    Some (<[fileUrl := Some hash]> manifest)
  else Some (<[fileUrl := None]> manifest).

(** The manifest object the script serializes. *)
Definition generatePrecacheManifest fs (publicDir : string)
  : option (gmap string (option string)) :=
  foldl (manifestStep fs publicDir) (Some ∅) filesToCache.

(** An entry the service worker adds to the precache list; the revision
    is [precacheManifest(url)]: a hash, [Some None] for [null], [None]
    for [undefined]. *)
Record PrecacheEntry := {
  pe_url : string;
  pe_revision : option (option string)
}.

Definition addToPrecacheList (precacheManifest : gmap string (option string))
  : list PrecacheEntry :=
  [{| pe_url := "/data/metadata.json";
      pe_revision := precacheManifest !! "/data/metadata.json" |};
   {| pe_url := "/data/hotlines.json";
      pe_revision := precacheManifest !! "/data/hotlines.json" |};
   {| pe_url := "/bettergov-horizontal-logo.png";
      pe_revision := precacheManifest !! "/bettergov-horizontal-logo.png" |}].

End PrecacheManifest.

(** ** More example data *)

(** Two regions with one province each. *)
Definition twoRegionMetadata : IMetadataResponse :=
  {| metadata :=
       {| regions :=
            [{| r_name := "NCR";
                r_provinces :=
                  [{| p_province := "Metro Manila";
                      p_cities := ["Manila"; "Quezon City"] |}] |};
             {| r_name := "Region VII";
                r_provinces :=
                  [{| p_province := "Cebu";
                      p_cities := ["Cebu City"] |}] |}] |} |}.

(** A dataset without regions. *)
Definition emptyMetadata : IMetadataResponse :=
  {| metadata := {| regions := [] |} |}.

(** A disk that holds the two data files but not the logo. *)
Definition exampleDisk : gmap string string :=
  {["public/data/metadata.json" := "{}";
    "public/data/hotlines.json" := "[]"]}.


(** * Properties *)

(** ** Strings *)

Section StringFacts.

Lemma append_cons (c : ascii) (a b : string) :
  String c a +:+ b = String c (a +:+ b).
Proof. reflexivity. Qed.

Lemma append_empty_l (b : string) : "" +:+ b = b.
Proof. reflexivity. Qed.

Lemma append_empty_r (a : string) : a +:+ "" = a.
Proof.
  induction a as [|c a IH]; [reflexivity|].
  by rewrite append_cons, IH.
Qed.

Lemma toLowerCase_app (a b : string) :
  JS.toLowerCase (a +:+ b) = JS.toLowerCase a +:+ JS.toLowerCase b.
Proof.
  induction a as [|c a IH]; [reflexivity|].
  rewrite !append_cons. simpl. by rewrite IH.
Qed.

Lemma isWhiteSpace_toLowerChar (c : ascii) :
  JS.isWhiteSpace (JS.toLowerChar c) = JS.isWhiteSpace c.
Proof. by destruct c as [[] [] [] [] [] [] [] []]. Qed.

Lemma toLowerChar_idemp (c : ascii) :
  JS.toLowerChar (JS.toLowerChar c) = JS.toLowerChar c.
Proof. by destruct c as [[] [] [] [] [] [] [] []]. Qed.

Lemma toLowerCase_idemp (s : string) :
  JS.toLowerCase (JS.toLowerCase s) = JS.toLowerCase s.
Proof.
  induction s as [|c s IH]; [reflexivity|].
  simpl. by rewrite toLowerChar_idemp, IH.
Qed.

Lemma trimStart_toLowerCase (s : string) :
  JS.trimStart (JS.toLowerCase s) = JS.toLowerCase (JS.trimStart s).
Proof.
  induction s as [|c s IH]; [reflexivity|]. simpl.
  rewrite isWhiteSpace_toLowerChar. by destruct (JS.isWhiteSpace c).
Qed.

Lemma trimEnd_toLowerCase (s : string) :
  JS.trimEnd (JS.toLowerCase s) = JS.toLowerCase (JS.trimEnd s).
Proof.
  induction s as [|c s IH]; [reflexivity|]. simpl. rewrite IH.
  destruct (JS.trimEnd s) as [|d t]; simpl; [|done].
  rewrite isWhiteSpace_toLowerChar. by destruct (JS.isWhiteSpace c).
Qed.

(** The first non-blank character stops [trimStart]. *)
Lemma trimStart_app_stop (c : ascii) (a b : string) :
  JS.isWhiteSpace c = false →
  JS.trimStart (a +:+ String c b) = JS.trimStart a +:+ String c b.
Proof.
  intros Hc. induction a as [|d a IH].
  - rewrite append_empty_l. simpl. by rewrite Hc.
  - rewrite append_cons. simpl. by destruct (JS.isWhiteSpace d).
Qed.

Lemma trimEnd_stop (c : ascii) (b : string) :
  JS.isWhiteSpace c = false →
  JS.trimEnd (String c b) = String c (JS.trimEnd b).
Proof. intros Hc. simpl. rewrite Hc. by destruct (JS.trimEnd b). Qed.

(** What precedes a non-blank character survives [trimEnd]. *)
Lemma trimEnd_app_stop (c : ascii) (a b : string) :
  JS.isWhiteSpace c = false →
  JS.trimEnd (a +:+ String c b) = a +:+ String c (JS.trimEnd b).
Proof.
  intros Hc. induction a as [|d a IH].
  - rewrite !append_empty_l. by apply trimEnd_stop.
  - rewrite !append_cons. simpl. rewrite IH.
    by destruct a.
Qed.

(** A string without trailing blanks keeps none after [trimStart]. *)
Lemma trimEnd_trimStart_fixed (s : string) :
  JS.trimEnd s = s → JS.trimEnd (JS.trimStart s) = JS.trimStart s.
Proof.
  induction s as [|c s IH]; [done|]. intros Hs. simpl.
  destruct (JS.isWhiteSpace c) eqn:Hc; [|done].
  apply IH. simpl in Hs. rewrite Hc in Hs.
  destruct (JS.trimEnd s); [done|]. by injection Hs.
Qed.

(** The key the code builds: only the outer ends are trimmed. *)
Lemma normalizeString_template (city province : string) :
  normalizeString (city +:+ "|" +:+ province)
  = JS.trimStart (JS.toLowerCase city) +:+ "|"
    +:+ JS.trimEnd (JS.toLowerCase province).
Proof.
  unfold normalizeString, JS.trim.
  rewrite !toLowerCase_app.
  change (JS.toLowerCase "|" +:+ ?p) with (String "|"%char p).
  by rewrite trimStart_app_stop, trimEnd_app_stop.
Qed.

Lemma normalizeString_template_trimmed (city province : string) :
  JS.trimEnd city = city → JS.trimStart province = province →
  normalizeString (city +:+ "|" +:+ province)
  = normalizeString city +:+ "|" +:+ normalizeString province.
Proof.
  intros Hc Hp. rewrite normalizeString_template.
  unfold normalizeString, JS.trim. f_equal; [|f_equal].
  - symmetry. apply trimEnd_trimStart_fixed.
    by rewrite trimEnd_toLowerCase, Hc.
  - by rewrite trimStart_toLowerCase, Hp.
Qed.

Lemma trimStart_length (s : string) :
  (String.length (JS.trimStart s) ≤ String.length s)%nat.
Proof.
  induction s as [|c s IH]; [done|]. simpl.
  destruct (JS.isWhiteSpace c); simpl; lia.
Qed.

Lemma trimStart_idemp (s : string) :
  JS.trimStart (JS.trimStart s) = JS.trimStart s.
Proof.
  induction s as [|c s IH]; [done|]. simpl.
  destruct (JS.isWhiteSpace c) eqn:Hc; [done|]. simpl. by rewrite Hc.
Qed.

Lemma trimEnd_idemp (s : string) :
  JS.trimEnd (JS.trimEnd s) = JS.trimEnd s.
Proof.
  induction s as [|c s IH]; [done|]. simpl.
  destruct (JS.trimEnd s) as [|d t] eqn:Ht.
  - destruct (JS.isWhiteSpace c) eqn:Hc; [done|]. simpl. by rewrite Hc.
  - change (JS.trimEnd (String c (String d t)))
      with (match JS.trimEnd (String d t) with
            | "" => if JS.isWhiteSpace c then "" else String c ""
            | t' => String c t'
            end).
    by rewrite IH.
Qed.

(** A string without leading blanks keeps none after [trimEnd]. *)
Lemma trimStart_trimEnd_fixed (s : string) :
  JS.trimStart s = s → JS.trimStart (JS.trimEnd s) = JS.trimEnd s.
Proof.
  destruct s as [|c s]; [done|]. simpl (JS.trimStart _) at 1.
  destruct (JS.isWhiteSpace c) eqn:Hc.
  - intros Hs. pose proof (trimStart_length s) as Hlen.
    rewrite Hs in Hlen. simpl in Hlen. lia.
  - intros _. rewrite trimEnd_stop by done. simpl. by rewrite Hc.
Qed.

(** [normalize(x) = normalize(normalize(x))]. *)
Lemma normalizeString_idemp (s : string) :
  normalizeString (normalizeString s) = normalizeString s.
Proof.
  unfold normalizeString, JS.trim.
  rewrite <-trimEnd_toLowerCase, <-trimStart_toLowerCase, toLowerCase_idemp.
  rewrite trimStart_trimEnd_fixed by apply trimStart_idemp.
  apply trimEnd_idemp.
Qed.

Example normalizeString_example :
  normalizeString "  Metro MANILA " = "metro manila".
Proof. reflexivity. Qed.

End StringFacts.


(** ** Maps filled by successive [set] calls *)

Section SetAll.
Context {V : Type}.
Implicit Types (m : gmap string V) (l : list (string * V)).

Lemma setAll_snoc m l k v :
  setAll m (l ++ [(k, v)]) = <[k := v]> (setAll m l).
Proof. unfold setAll. by rewrite foldl_snoc. Qed.

Lemma setAll_app m l1 l2 : setAll m (l1 ++ l2) = setAll (setAll m l1) l2.
Proof. apply foldl_app. Qed.

Lemma setAll_lookup_notin m l k :
  k ∉ l.*1 → setAll m l !! k = m !! k.
Proof.
  induction l as [|[k' v'] l IH] using rev_ind; [done|].
  rewrite fmap_app, not_elem_of_app. intros [Hl Hk].
  rewrite setAll_snoc, lookup_insert_ne; [by apply IH|].
  intros ->. apply Hk. simpl. by left.
Qed.

(** The last [set] of a key decides. *)
Lemma setAll_lookup_last m l1 l2 k v :
  k ∉ l2.*1 → setAll m (l1 ++ (k, v) :: l2) !! k = Some v.
Proof.
  intros Hk. change ((k, v) :: l2) with ([(k, v)] ++ l2).
  rewrite app_assoc, setAll_app, setAll_lookup_notin by done.
  by rewrite setAll_snoc, lookup_insert_eq.
Qed.

Lemma setAll_lookup_const m l k v :
  (∀ v', (k, v') ∈ l → v' = v) → k ∈ l.*1 → setAll m l !! k = Some v.
Proof.
  induction l as [|[k' v'] l IH] using rev_ind; [by intros _ ?%elem_of_nil|].
  intros Hv Hk. rewrite setAll_snoc.
  destruct (decide (k' = k)) as [->|Hne].
  - rewrite lookup_insert_eq. f_equal. apply Hv.
    rewrite elem_of_app, list_elem_of_singleton. by right.
  - rewrite lookup_insert_ne by done. apply IH.
    + intros v'' Hin. apply Hv. rewrite elem_of_app. by left.
    + rewrite fmap_app, elem_of_app in Hk.
      destruct Hk as [Hk|Hk]; [done|].
      apply list_elem_of_singleton in Hk. simpl in Hk. congruence.
Qed.

Lemma setAll_lookup_Some m l k v :
  setAll m l !! k = Some v → (k, v) ∈ l ∨ m !! k = Some v.
Proof.
  induction l as [|[k' v'] l IH] using rev_ind; [by right|].
  rewrite setAll_snoc. destruct (decide (k' = k)) as [->|Hne].
  - rewrite lookup_insert_eq. intros [= ->]. left.
    rewrite elem_of_app, list_elem_of_singleton. by right.
  - rewrite lookup_insert_ne by done. intros [Hin|Hm]%IH; [left|by right].
    rewrite elem_of_app. by left.
Qed.

Lemma setAll_lookup_is_Some m l k :
  k ∈ l.*1 → is_Some (setAll m l !! k).
Proof.
  induction l as [|[k' v'] l IH] using rev_ind; [by intros ?%elem_of_nil|].
  rewrite setAll_snoc, fmap_app, elem_of_app.
  destruct (decide (k' = k)) as [->|Hne].
  - rewrite lookup_insert_eq. eauto.
  - rewrite lookup_insert_ne by done. intros [Hk|Hk]; [by apply IH|].
    apply list_elem_of_singleton in Hk. simpl in Hk. congruence.
Qed.

End SetAll.

(** ** The hierarchy index *)

Section HierarchyIndex.
Implicit Types (md : IMetadataResponse).

Lemma foldl_bind {A B C} (f : A → B → A) (g : C → list B) (a : A)
    (l : list C) :
  foldl f a (l ≫= g) = foldl (λ a x, foldl f a (g x)) a l.
Proof.
  revert a. induction l as [|x l IH]; intros a; [done|].
  simpl. by rewrite foldl_app, IH.
Qed.

Lemma foldl_ext_in {A B} (f g : A → B → A) (a : A) (l : list B) :
  (∀ a x, f a x = g a x) → foldl f a l = foldl g a l.
Proof.
  intros Hfg. revert a. induction l as [|x l IH]; intros a; [done|].
  simpl. by rewrite Hfg, IH.
Qed.

Lemma provinceToRegionMap_pairs md :
  provinceToRegionMap (Some md) = setAll ∅ (provincePairs md).
Proof.
  unfold provinceToRegionMap, setAll, provincePairs.
  rewrite foldl_bind. apply foldl_ext_in. intros m region.
  by rewrite foldl_fmap.
Qed.

Lemma cityToLocationMap_pairs md :
  cityToLocationMap (Some md) = setAll ∅ (cityPairs md).
Proof.
  unfold cityToLocationMap, setAll, cityPairs.
  rewrite foldl_bind. apply foldl_ext_in. intros m region.
  rewrite foldl_bind. apply foldl_ext_in. intros m' province.
  by rewrite foldl_fmap.
Qed.

Lemma elem_of_allCities md e :
  e ∈ allCities md ↔
  ∃ region province city,
    owns md region province city
    ∧ e = cityEntry (r_name region) (p_province province) city.
Proof.
  unfold allCities, owns. split.
  - intros (data & (city & -> & Hc)%list_elem_of_fmap & Hd)%list_elem_of_bind.
    apply list_elem_of_bind in Hd as (region & Hd & Hr).
    apply list_elem_of_fmap in Hd as (province & -> & Hp).
    by exists region, province, city.
  - intros (region & province & city & (Hr & Hp & Hc) & ->).
    apply list_elem_of_bind.
    exists (r_name region, p_province province, p_cities province). split.
    + apply list_elem_of_fmap. by exists city.
    + apply list_elem_of_bind. exists region. split; [|done].
      apply list_elem_of_fmap. by exists province.
Qed.

Lemma elem_of_cityPairs md key loc :
  (key, loc) ∈ cityPairs md ↔
  ∃ region province city,
    owns md region province city
    ∧ key = normalizeString (city +:+ "|" +:+ p_province province)
    ∧ loc = {| cl_region := normalizeString (r_name region);
               cl_province := normalizeString (p_province province) |}.
Proof.
  unfold cityPairs, owns. split.
  - intros (region & Hin & Hr)%list_elem_of_bind.
    apply list_elem_of_bind in Hin as (province & Hin & Hp).
    apply list_elem_of_fmap in Hin as (city & [= -> ->] & Hc).
    by exists region, province, city.
  - intros (region & province & city & (Hr & Hp & Hc) & -> & ->).
    apply list_elem_of_bind. exists region. split; [|done].
    apply list_elem_of_bind. exists province. split; [|done].
    apply list_elem_of_fmap. by exists city.
Qed.

Lemma elem_of_provincePairs md key region_key :
  (key, region_key) ∈ provincePairs md ↔
  ∃ region province,
    region ∈ regions (metadata md) ∧ province ∈ r_provinces region
    ∧ key = normalizeString (p_province province)
    ∧ region_key = normalizeString (r_name region).
Proof.
  unfold provincePairs. split.
  - intros (region & Hin & Hr)%list_elem_of_bind.
    apply list_elem_of_fmap in Hin as (province & [= -> ->] & Hp).
    by exists region, province.
  - intros (region & province & Hr & Hp & -> & ->).
    apply list_elem_of_bind. exists region. split; [|done].
    apply list_elem_of_fmap. by exists province.
Qed.

Lemma elem_of_locationFilters md fo e :
  e ∈ locationFilters (Some md) fo → e ∈ allCities md.
Proof.
  unfold locationFilters.
  destruct (JS.truthy (f_province fo)); [by intros [_ ?]%list_elem_of_filter|].
  destruct (JS.truthy (f_region fo)); [by intros [_ ?]%list_elem_of_filter|].
  done.
Qed.

Lemma locationFilters_unfiltered md fo :
  f_region fo = "" → f_province fo = "" →
  locationFilters (Some md) fo = allCities md.
Proof. unfold locationFilters. by intros -> ->. Qed.

(** Every city of the list has its key in the city map. *)
Lemma cityToLocationMap_lookup_entry md e :
  e ∈ allCities md →
  ∃ loc, cityToLocationMap (Some md) !! lf_key e = Some loc
         ∧ (lf_key e, loc) ∈ cityPairs md.
Proof.
  intros (region & province & city & Hown & ->)%elem_of_allCities.
  cbn [lf_key]. rewrite cityToLocationMap_pairs.
  destruct (setAll_lookup_is_Some ∅ (cityPairs md)
              (normalizeString (city +:+ "|" +:+ p_province province)))
    as [loc Hloc].
  - apply list_elem_of_fmap.
    exists (normalizeString (city +:+ "|" +:+ p_province province),
            {| cl_region := normalizeString (r_name region);
               cl_province := normalizeString (p_province province) |}).
    split; [done|]. apply elem_of_cityPairs. naive_solver.
  - exists loc. split; [done|].
    apply setAll_lookup_Some in Hloc as [?|Hloc]; [done|].
    by rewrite lookup_empty in Hloc.
Qed.

End HierarchyIndex.


(** ** Composite city keys *)

Section CityKeys.
Implicit Types (md : IMetadataResponse).

Lemma forOfReturn_Some {A B} (body : A → option B) (l : list A) (r : B) :
  forOfReturn body l = Some r → ∃ x, x ∈ l ∧ body x = Some r.
Proof.
  induction l as [|x l IH]; [done|]. simpl.
  destruct (body x) as [r'|] eqn:Hx.
  - intros [= ->]. exists x. split; [by left|done].
  - intros (y & Hy & Hr)%IH. exists y. split; [by right|done].
Qed.

Lemma Array_find_Some {A} (P : A → Prop) `{∀ x, Decision (P x)}
    (l : list A) (x : A) :
  Array_find P l = Some x → x ∈ l ∧ P x.
Proof.
  unfold Array_find. destruct (list_find P l) as [[i y]|] eqn:Hf; [|done].
  intros [= <-]. apply list_find_Some in Hf as (Hi & HP & _).
  split; [|done]. by eapply list_elem_of_lookup_2.
Qed.

Lemma findLocationInMetadata_Some md cityName loc :
  findLocationInMetadata md cityName = Some loc →
  ∃ region province cityMatch,
    owns md region province cityMatch
    ∧ normalizeString cityMatch = normalizeString cityName
    ∧ loc = {| loc_region := normalizeString (r_name region);
               loc_province := normalizeString (p_province province);
               loc_city :=
                 normalizeString
                   (cityMatch +:+ "|" +:+ p_province province) |}.
Proof.
  unfold findLocationInMetadata.
  intros (region & Hr & Hbody)%forOfReturn_Some.
  apply forOfReturn_Some in Hbody as (province & Hp & Hbody).
  destruct (Array_find _ _) as [cityMatch|] eqn:Hfind; [|done].
  apply Array_find_Some in Hfind as [Hc Heq].
  destruct (JS.truthy cityMatch); [|done].
  injection Hbody as <-. by exists region, province, cityMatch.
Qed.

Lemma getDefaultLocation_first md region rs province ps city cs :
  regions (metadata md) = region :: rs →
  r_provinces region = province :: ps →
  p_cities province = city :: cs →
  getDefaultLocation md
  = Some {| loc_region := normalizeString (r_name region);
            loc_province := normalizeString (p_province province);
            loc_city :=
              normalizeString (city +:+ "|" +:+ p_province province) |}.
Proof.
  intros Hr Hp Hc. unfold getDefaultLocation.
  rewrite Hr. simpl. rewrite Hp. simpl. by rewrite Hc.
Qed.

Lemma builtKey_spec_trimmed (city province : string) :
  JS.trimEnd city = city → JS.trimStart province = province →
  builtKey city province = compositeKey_spec city province.
Proof.
  intros Hc Hp. unfold builtKey, compositeKey_spec.
  rewrite <-normalizeString_template.
  by apply normalizeString_template_trimmed.
Qed.

End CityKeys.

(** C1, as stated, fails: a city name that ends with a blank keeps the
    blank inside its key, which is then not the concatenation of the two
    normalized parts. *)
Lemma padded_city_key_differs :
  lf_key <$> locationFilters (Some paddedMetadata) initialFilterOptions
  = ["manila |metro manila"]
  ∧ (λ e, compositeKey_spec (lf_city e) (lf_province e))
      <$> locationFilters (Some paddedMetadata) initialFilterOptions
    = ["manila|metro manila"]
  ∧ cityToLocationMap (Some paddedMetadata) !! "manila|metro manila" = None
  ∧ loc_city <$> getDefaultLocation paddedMetadata
    = Some "manila |metro manila".
Proof. by vm_compute. Qed.

(** C1 (amended): every city key the index produces - in the city list, in
    the city-to-location map, in the resolver's hierarchy match and in the
    dataset default - is the normalization of the text city|province taken
    as a whole: lower-cased, with the blanks before the city and after the
    province removed.  It equals normalize(city) + "|" + normalize(province)
    whenever the city has no blank at its end and the province none at its
    start. *)
Theorem city_key_is_normalized_whole (md : IMetadataResponse) :
  (∀ fo e, e ∈ locationFilters (Some md) fo →
     lf_key e = builtKey (lf_city e) (lf_province e))
  ∧ (∀ key loc, cityToLocationMap (Some md) !! key = Some loc →
       ∃ region province city,
         owns md region province city
         ∧ key = builtKey city (p_province province)
         ∧ loc = {| cl_region := normalizeString (r_name region);
                    cl_province := normalizeString (p_province province) |})
  ∧ (∀ cityName loc, findLocationInMetadata md cityName = Some loc →
       ∃ region province city,
         owns md region province city
         ∧ normalizeString city = normalizeString cityName
         ∧ loc_city loc = builtKey city (p_province province))
  ∧ (∀ region rs province ps city cs,
       regions (metadata md) = region :: rs →
       r_provinces region = province :: ps →
       p_cities province = city :: cs →
       loc_city <$> getDefaultLocation md
       = Some (builtKey city (p_province province)))
  ∧ (∀ city province,
       JS.trimEnd city = city → JS.trimStart province = province →
       builtKey city province = compositeKey_spec city province).
Proof.
  split_and!.
  - intros fo e (region & province & city & _ & ->)%elem_of_locationFilters
                  %elem_of_allCities.
    apply normalizeString_template.
  - intros key loc Hlook. rewrite cityToLocationMap_pairs in Hlook.
    apply setAll_lookup_Some in Hlook as [Hin|Hlook]; [|done].
    apply elem_of_cityPairs in Hin as (region & province & city & ? & -> & ->).
    exists region, province, city. split_and!; [done| |done].
    apply normalizeString_template.
  - intros cityName loc Hfind.
    apply findLocationInMetadata_Some in Hfind
      as (region & province & city & ? & ? & ->).
    exists region, province, city. split_and!; [done..|].
    apply normalizeString_template.
  - intros region rs province ps city cs Hr Hp Hc.
    rewrite (getDefaultLocation_first _ _ _ _ _ _ _ Hr Hp Hc). simpl.
    f_equal. apply normalizeString_template.
  - apply builtKey_spec_trimmed.
Qed.

(** The key of Manila, Metro Manila in the NCR dataset. *)
Lemma city_key_is_normalized_whole_witness :
  lf_key (cityEntry "NCR" "Metro Manila" "Manila")
  = builtKey "Manila" "Metro Manila"
  ∧ builtKey "Manila" "Metro Manila" = compositeKey_spec "Manila" "Metro Manila"
  ∧ loc_city <$> getDefaultLocation ncrMetadata
    = Some (builtKey "Manila" "Metro Manila").
Proof.
  pose proof (city_key_is_normalized_whole ncrMetadata)
    as (Hlist & _ & _ & Hdefault & Hspec).
  split_and!.
  - apply (Hlist initialFilterOptions
             (cityEntry "NCR" "Metro Manila" "Manila")).
    vm_compute. apply list_elem_of_here.
  - apply Hspec; reflexivity.
  - apply (Hdefault
             {| r_name := "NCR";
                r_provinces :=
                  [{| p_province := "Metro Manila";
                      p_cities := ["Manila"; "Quezon City"] |}] |}
             []
             {| p_province := "Metro Manila";
                p_cities := ["Manila"; "Quezon City"] |}
             [] "Manila" ["Quezon City"]); reflexivity.
Defined.

(** ** Province to region *)

Section ProvinceToRegion.
Implicit Types (md : IMetadataResponse).

Lemma provincePairs_regions md rs1 r rs2 :
  regions (metadata md) = rs1 ++ r :: rs2 →
  provincePairs md
  = (rs1 ≫= λ region,
       (λ province, (normalizeString (p_province province),
                     normalizeString (r_name region)))
         <$> r_provinces region)
    ++ ((λ province, (normalizeString (p_province province),
                      normalizeString (r_name r))) <$> r_provinces r)
    ++ (rs2 ≫= λ region,
          (λ province, (normalizeString (p_province province),
                        normalizeString (r_name region)))
            <$> r_provinces region).
Proof.
  intros Hr. unfold provincePairs. rewrite Hr.
  by rewrite bind_app, bind_cons.
Qed.

Lemma provinceToRegionMap_last md rs1 r rs2 p k :
  regions (metadata md) = rs1 ++ r :: rs2 →
  p ∈ r_provinces r →
  normalizeString (p_province p) = k →
  (∀ r' p', r' ∈ rs2 → p' ∈ r_provinces r' →
            normalizeString (p_province p') ≠ k) →
  provinceToRegionMap (Some md) !! k = Some (normalizeString (r_name r)).
Proof.
  intros Hr Hp Hk Hlast.
  rewrite provinceToRegionMap_pairs, (provincePairs_regions _ _ _ _ Hr).
  rewrite app_assoc, setAll_app, setAll_lookup_notin.
  - rewrite setAll_app. apply setAll_lookup_const.
    + intros v (p' & [= _ ->] & _)%list_elem_of_fmap. done.
    + apply list_elem_of_fmap.
      exists (k, normalizeString (r_name r)). split; [done|].
      apply list_elem_of_fmap. exists p. by rewrite Hk.
  - intros ([k' v] & -> & Hin)%list_elem_of_fmap.
    apply list_elem_of_bind in Hin as (r' & Hin & Hr').
    apply list_elem_of_fmap in Hin as (p' & [= Hk' _] & Hp').
    by eapply Hlast.
Qed.

Lemma orEmpty_region (v : string) :
  (if JS.truthy v then v else "") = v.
Proof. unfold JS.truthy. by case_bool_decide; subst. Qed.

End ProvinceToRegion.

(** C2, as stated, fails: with the province name Shared under Region A and
    then under Region B, the first-indexed region is Region A, while the
    lookup, and the region set on selecting the province, give Region B. *)
Lemma duplicate_province_resolves_to_later_region :
  provinceToRegion_first_spec dupMetadata "shared" = Some "region a"
  ∧ provinceToRegionMap (Some dupMetadata) !! "shared" = Some "region b"
  ∧ f_region (filterOptions
                (handleProvinceChange (Some dupMetadata) "shared"
                   (initialState ∅)))
    = "region b".
Proof. by vm_compute. Qed.

(** C2 (amended): when the same normalized province name appears under
    several regions, the province-to-region lookup, and the region set when
    the user selects that province, resolve the name to the last region, in
    dataset order, that lists it. *)
Theorem province_resolves_to_last_region (md : IMetadataResponse)
    (rs1 : list Region) (r : Region) (rs2 : list Region) (p : Province)
    (k : string) (st : AppState) :
  regions (metadata md) = rs1 ++ r :: rs2 →
  p ∈ r_provinces r →
  normalizeString (p_province p) = k →
  (∀ r' p', r' ∈ rs2 → p' ∈ r_provinces r' →
            normalizeString (p_province p') ≠ k) →
  provinceToRegionMap (Some md) !! k = Some (normalizeString (r_name r))
  ∧ f_region (filterOptions (handleProvinceChange (Some md) k st))
    = normalizeString (r_name r).
Proof.
  intros Hr Hp Hk Hlast.
  pose proof (provinceToRegionMap_last md rs1 r rs2 p k Hr Hp Hk Hlast) as Hm.
  split; [done|]. unfold handleProvinceChange. rewrite Hm. simpl.
  apply orEmpty_region.
Qed.

(** The province Shared resolves to Region B, the last to list it. *)
Lemma province_resolves_to_last_region_witness :
  provinceToRegionMap (Some dupMetadata) !! "shared" = Some "region b"
  ∧ f_region (filterOptions
                (handleProvinceChange (Some dupMetadata) "shared"
                   (initialState ∅)))
    = "region b".
Proof.
  apply (province_resolves_to_last_region dupMetadata
           [{| r_name := "Region A";
               r_provinces :=
                 [{| p_province := "Shared"; p_cities := ["Alpha"] |}] |}]
           {| r_name := "Region B";
              r_provinces :=
                [{| p_province := "Shared"; p_cities := ["Beta"] |}] |}
           []
           {| p_province := "Shared"; p_cities := ["Beta"] |}
           "shared" (initialState ∅)).
  - reflexivity.
  - apply list_elem_of_here.
  - reflexivity.
  - intros r' p' Hr'. by apply elem_of_nil in Hr'.
Defined.


(** ** Round trip between the city list and the city map *)

(** C9: every key of the full city list is a key of the city-to-location
    map, and the map returns the normalized region and province of an entry
    of the list that carries that key. *)
Theorem city_key_round_trip (md : IMetadataResponse) (fo : FilterOptions)
    (key : string) :
  f_region fo = "" → f_province fo = "" →
  key ∈ lf_key <$> locationFilters (Some md) fo →
  ∃ loc e,
    cityToLocationMap (Some md) !! key = Some loc
    ∧ e ∈ locationFilters (Some md) fo
    ∧ lf_key e = key
    ∧ cl_region loc = normalizeString (lf_region e)
    ∧ cl_province loc = normalizeString (lf_province e).
Proof.
  intros Hr Hp. rewrite (locationFilters_unfiltered md fo Hr Hp).
  intros (e0 & -> & He0)%list_elem_of_fmap.
  destruct (cityToLocationMap_lookup_entry md e0 He0) as (loc & Hloc & Hin).
  apply elem_of_cityPairs in Hin as (region & province & city & Hown & Hk & ->).
  exists {| cl_region := normalizeString (r_name region);
            cl_province := normalizeString (p_province province) |},
         (cityEntry (r_name region) (p_province province) city).
  split_and!; [done| |done..].
  apply elem_of_allCities. by exists region, province, city.
Qed.

(** The key of Quezon City in the NCR dataset. *)
Lemma city_key_round_trip_witness :
  ∃ loc e,
    cityToLocationMap (Some ncrMetadata) !! "quezon city|metro manila"
    = Some loc
    ∧ e ∈ locationFilters (Some ncrMetadata) initialFilterOptions
    ∧ lf_key e = "quezon city|metro manila"
    ∧ cl_region loc = normalizeString (lf_region e)
    ∧ cl_province loc = normalizeString (lf_province e).
Proof.
  apply (city_key_round_trip ncrMetadata initialFilterOptions
           "quezon city|metro manila"); [reflexivity..|].
  vm_compute. apply list_elem_of_further, list_elem_of_here.
Defined.

(** ** The filter transitions *)

Section Transitions.
Implicit Types (md : IMetadataResponse) (st : AppState).

Lemma elem_of_provinceFilters md fo pf :
  pf ∈ provinceFilters (Some md) fo →
  ∃ region province,
    region ∈ regions (metadata md) ∧ province ∈ r_provinces region
    ∧ pf = {| pf_name := p_province province;
              pf_regionName := r_name region;
              pf_key := normalizeString (p_province province) |}.
Proof.
  unfold provinceFilters. intros Hin.
  assert (pf ∈ regions (metadata md) ≫= λ region,
            (λ province,
               {| pf_name := p_province province;
                  pf_regionName := r_name region;
                  pf_key := normalizeString (p_province province) |})
              <$> r_provinces region) as Hall.
  { destruct (JS.truthy (f_region fo)); [|done].
    by apply list_elem_of_filter in Hin as [_ ?]. }
  apply list_elem_of_bind in Hall as (region & Hp & Hr).
  apply list_elem_of_fmap in Hp as (province & -> & Hp).
  by exists region, province.
Qed.

(** A listed province key is in the province map, under the normalized
    name of a region that lists a province of that key. *)
Lemma provinceToRegionMap_listed md region province :
  region ∈ regions (metadata md) → province ∈ r_provinces region →
  ∃ owner province',
    owner ∈ regions (metadata md) ∧ province' ∈ r_provinces owner
    ∧ normalizeString (p_province province')
      = normalizeString (p_province province)
    ∧ provinceToRegionMap (Some md) !! normalizeString (p_province province)
      = Some (normalizeString (r_name owner)).
Proof.
  intros Hr Hp. rewrite provinceToRegionMap_pairs.
  destruct (setAll_lookup_is_Some ∅ (provincePairs md)
              (normalizeString (p_province province))) as [v Hv].
  - apply list_elem_of_fmap.
    exists (normalizeString (p_province province),
            normalizeString (r_name region)).
    split; [done|]. apply elem_of_provincePairs. by exists region, province.
  - rewrite Hv. apply setAll_lookup_Some in Hv as [Hin|Hv]; [|done].
    apply elem_of_provincePairs in Hin as (owner & province' & ? & ? & ? & ->).
    by exists owner, province'.
Qed.

Lemma handleCityChange_listed md st e :
  e ∈ allCities md →
  ∃ region province city,
    owns md region province city
    ∧ normalizeString (city +:+ "|" +:+ p_province province) = lf_key e
    ∧ filterOptions (handleCityChange (Some md) (lf_key e) st)
      = {| f_region := normalizeString (r_name region);
           f_province := normalizeString (p_province province);
           f_city := lf_key e;
           f_category := f_category (filterOptions st) |}.
Proof.
  intros He.
  destruct (cityToLocationMap_lookup_entry md e He) as (loc & Hloc & Hin).
  apply elem_of_cityPairs in Hin as (region & province & city & ? & Hk & ->).
  exists region, province, city. split_and!; [done..|].
  unfold handleCityChange. by rewrite Hloc.
Qed.

End Transitions.




(** ** The location resolver *)

Section ResolverFacts.
Variable JSON_parse : string → option Parsed.
Implicit Types (md : IMetadataResponse) (st : AppState).

(** The [catch] block starts by reading the store. *)
Lemma getLocation_catch_reads md st :
  getItem "lastSavedLocation"
  ∈ storageCalls (outcomeState (getLocation_catch JSON_parse md st)).
Proof.
  unfold getLocation_catch, localStorage_getItem.
  repeat case_match; simpl; set_solver.
Qed.

(** When live detection fails the [try] block throws, keeping the filter
    and the store as they were. *)
Lemma getLocation_try_failed md geo response st :
  liveDetectionFailed geo response →
  ∃ st', getLocation_try md geo response st = inr st'
         ∧ filterOptions st' = filterOptions st
         ∧ localStorage st' = localStorage st
         ∧ storageCalls st' = storageCalls st.
Proof.
  intros Hfail. unfold getLocation_try.
  destruct geo; simpl; [by eexists..|].
  destruct response as [|[] data_city]; [by eexists|done|by eexists].
Qed.

Lemma getLocation_try_detected md data_city st :
  getLocation_try md Position (HttpResponse true data_city) st
  = match findLocationInMetadata md data_city with
    | Some matchedLocation =>
        inl (setIsDetectingLocation false (updateLocation matchedLocation st))
    | None =>
        match getDefaultLocation md with
        | Some defaultLocation =>
            inl (setIsDetectingLocation false
                   (updateLocation defaultLocation st))
        | None => inr st
        end
    end.
Proof. reflexivity. Qed.

End ResolverFacts.

(** C5: when geolocation and reverse geocoding succeed and the returned
    city has no match in the hierarchy, the resolver settles on the dataset
    default - the first region, its first province and that province's
    first city, normalized - and persists it, its only storage call being
    that write.  The persisted value is read exactly when geolocation or
    the reverse-geocoding request failed. *)
Theorem no_match_resolves_to_default (JSON_parse : string → option Parsed)
    (md : IMetadataResponse) (st : AppState) (defaultLocation : Location) :
  getDefaultLocation md = Some defaultLocation →
  getItem "lastSavedLocation" ∉ storageCalls st →
  (∀ data_city,
     findLocationInMetadata md data_city = None →
     ∃ st',
       getLocation JSON_parse md Position (HttpResponse true data_city) st
       = Settled st'
       ∧ filterOptions st' = spreadLocation (filterOptions st) defaultLocation
       ∧ localStorage st'
         = <["lastSavedLocation" := JSON_stringify defaultLocation]>
             (localStorage st)
       ∧ storageCalls st'
         = storageCalls st
           ++ [setItem "lastSavedLocation" (JSON_stringify defaultLocation)]
       ∧ isDetectingLocation st' = false)
  ∧ (∀ region rs province ps city cs,
       regions (metadata md) = region :: rs →
       r_provinces region = province :: ps →
       p_cities province = city :: cs →
       defaultLocation
       = {| loc_region := normalizeString (r_name region);
            loc_province := normalizeString (p_province province);
            loc_city :=
              normalizeString (city +:+ "|" +:+ p_province province) |})
  ∧ (∀ geo response,
       getItem "lastSavedLocation"
       ∈ storageCalls
           (outcomeState (getLocation JSON_parse md geo response st))
       ↔ liveDetectionFailed geo response).
Proof.
  intros Hdefault Hfresh. split_and!.
  - intros data_city Hnone.
    exists (setIsDetectingLocation false (updateLocation defaultLocation st)).
    split_and!; [|reflexivity..]. unfold getLocation.
    by rewrite getLocation_try_detected, Hnone, Hdefault.
  - intros region rs province ps city cs Hr Hp Hc.
    rewrite (getDefaultLocation_first _ _ _ _ _ _ _ Hr Hp Hc) in Hdefault.
    by injection Hdefault.
  - intros geo response. unfold getLocation. split.
    + destruct geo; [done..|]. destruct response as [|[] data_city]; [done| |done].
      rewrite getLocation_try_detected, Hdefault.
      destruct (findLocationInMetadata md data_city); simpl;
        rewrite elem_of_app, list_elem_of_singleton; by intros [?|[=]].
    + intros Hfail.
      destruct (getLocation_try_failed md geo response st Hfail)
        as (st' & -> & _).
      apply getLocation_catch_reads.
Qed.

(** A reverse-geocoded city the NCR dataset does not list, on a device
    that still holds a stored value. *)
Lemma no_match_resolves_to_default_witness :
  ∃ st',
    getLocation readStoredLocation ncrMetadata Position
      (HttpResponse true "Atlantis") legacyState
    = Settled st'
    ∧ filterOptions st'
      = {| f_region := "ncr"; f_province := "metro manila";
           f_city := "manila|metro manila"; f_category := "All Hotlines" |}
    ∧ storageCalls st'
      = [setItem "lastSavedLocation"
           (JSON_stringify
              {| loc_region := "ncr"; loc_province := "metro manila";
                 loc_city := "manila|metro manila" |})].
Proof.
  destruct (no_match_resolves_to_default readStoredLocation ncrMetadata
              legacyState
              {| loc_region := "ncr"; loc_province := "metro manila";
                 loc_city := "manila|metro manila" |})
    as (Hnomatch & _ & _).
  - reflexivity.
  - intros Hin. by apply elem_of_nil in Hin.
  - destruct (Hnomatch "Atlantis") as (st' & Hrun & Hfo & _ & Hcalls & _).
    + reflexivity.
    + exists st'. split_and!; [exact Hrun|exact Hfo|exact Hcalls].
Defined.

(** C6: when live detection fails and the persisted value is a non-empty
    string that does not parse, the resolver settles - no exception leaves
    it - with the city of the filter set to the normalized string; region,
    province and category are left as they were, unset in the initial
    filter, and nothing is written to the store. *)
Theorem legacy_string_sets_city_only (JSON_parse : string → option Parsed)
    (md : IMetadataResponse) (geo : GeoResult) (response : FetchResult)
    (st : AppState) (stored : string) :
  liveDetectionFailed geo response →
  localStorage st !! "lastSavedLocation" = Some stored →
  stored ≠ "" →
  JSON_parse stored = None →
  ∃ st',
    getLocation JSON_parse md geo response st = Settled st'
    ∧ filterOptions st'
      = {| f_region := f_region (filterOptions st);
           f_province := f_province (filterOptions st);
           f_city := normalizeString stored;
           f_category := f_category (filterOptions st) |}
    ∧ (filterOptions st = initialFilterOptions →
       f_region (filterOptions st') = ""
       ∧ f_province (filterOptions st') = "")
    ∧ localStorage st' = localStorage st
    ∧ isDetectingLocation st' = false.
Proof.
  intros Hfail Hstored Hne Hparse.
  destruct (getLocation_try_failed md geo response st Hfail)
    as (st1 & Htry & Hfo & Hls & _).
  unfold getLocation. rewrite Htry.
  unfold getLocation_catch, localStorage_getItem. rewrite Hls, Hstored.
  assert (JS.truthy stored = true) as ->.
  { unfold JS.truthy. by rewrite bool_decide_eq_false_2. }
  rewrite Hparse. eexists. split; [reflexivity|]. simpl.
  rewrite Hfo. split_and!; [done| |done..].
  by intros ->.
Qed.

(** A geolocation timeout on a device that stored the bare name manila. *)
Lemma legacy_string_sets_city_only_witness :
  ∃ st',
    getLocation readStoredLocation ncrMetadata (PositionError TIMEOUT)
      FetchRejected legacyState
    = Settled st'
    ∧ filterOptions st'
      = {| f_region := ""; f_province := ""; f_city := "manila";
           f_category := "All Hotlines" |}.
Proof.
  destruct (legacy_string_sets_city_only readStoredLocation ncrMetadata
              (PositionError TIMEOUT) FetchRejected legacyState "manila")
    as (st' & Hrun & Hfo & _).
  - exact I.
  - reflexivity.
  - discriminate.
  - reflexivity.
  - exists st'. split; [exact Hrun|exact Hfo].
Defined.

(** Scenario 1 of the specification: live detection fails and nothing is
    stored. *)
Example scenario_default_location :
  filterOptions
    (outcomeState
       (getLocation readStoredLocation ncrMetadata GeolocationUnsupported
          FetchRejected (initialState ∅)))
  = {| f_region := "ncr"; f_province := "metro manila";
       f_city := "manila|metro manila"; f_category := "All Hotlines" |}.
Proof. reflexivity. Qed.

(** Scenario 2: the casing of the reverse-geocoded city does not matter. *)
Example scenario_geocoded_casing :
  findLocationInMetadata ncrMetadata "QUEZON CITY"
  = Some {| loc_region := "ncr"; loc_province := "metro manila";
            loc_city := "quezon city|metro manila" |}.
Proof. reflexivity. Qed.

(** What [updateLocation] stores is read back by the example reader. *)
Example stored_location_reads_back :
  readStoredLocation
    (JSON_stringify {| loc_region := "ncr"; loc_province := "metro manila";
                       loc_city := "manila|metro manila" |})
  = Some (ParsedValue (Some "ncr") (Some "metro manila")
            (Some "manila|metro manila")).
Proof. reflexivity. Qed.


(** ** Sorting with a comparator *)

Section ArraySortFacts.
Context {A : Type} (compareFn : A → A → Z).

Local Abbreviation le := (λ a b, compareFn a b ≤ 0).

Lemma sort_insert_Permutation (x : A) (l : list A) :
  JS.sort_insert compareFn x l ≡ₚ x :: l.
Proof.
  induction l as [|y l IH]; [done|]. simpl.
  destruct (compareFn x y <=? 0); [done|].
  by rewrite IH, Permutation_swap.
Qed.

Lemma Array_sort_Permutation (l : list A) :
  JS.Array_sort compareFn l ≡ₚ l.
Proof.
  induction l as [|x l IH]; [done|].
  unfold JS.Array_sort in *. simpl.
  by rewrite sort_insert_Permutation, IH.
Qed.

Section Sorted.
Hypothesis compare_total : ∀ a b, 0 < compareFn a b → compareFn b a ≤ 0.
Hypothesis compare_trans :
  ∀ a b c, compareFn a b ≤ 0 → compareFn b c ≤ 0 → compareFn a c ≤ 0.

Lemma sort_insert_sorted (x : A) (l : list A) :
  StronglySorted le l → StronglySorted le (JS.sort_insert compareFn x l).
Proof.
  induction 1 as [|y l Hl IH Hy]; simpl.
  { repeat constructor. }
  destruct (Z.leb_spec (compareFn x y) 0) as [Hxy|Hxy].
  - constructor; [by constructor|]. constructor; [done|].
    eapply Forall_impl; [exact Hy|]. intros z Hz. by eapply compare_trans.
  - constructor; [done|].
    rewrite sort_insert_Permutation. constructor; [|done].
    by apply compare_total.
Qed.

Lemma Array_sort_sorted (l : list A) :
  StronglySorted le (JS.Array_sort compareFn l).
Proof.
  induction l as [|x l IH]; [constructor|].
  by apply sort_insert_sorted.
Qed.
End Sorted.

(** Stability: elements that compare equal among themselves keep their
    input order. *)
Lemma sort_insert_filter (P : A → Prop) `{∀ x, Decision (P x)}
    (x : A) (l : list A) :
  (∀ y, y ∈ l → P x → P y → compareFn x y ≤ 0) →
  filter P (JS.sort_insert compareFn x l) = filter P (x :: l).
Proof.
  induction l as [|y l IH]; [done|]. intros Hle. simpl.
  destruct (Z.leb_spec (compareFn x y) 0) as [Hxy|Hxy]; [done|].
  assert (filter P (JS.sort_insert compareFn x l) = filter P (x :: l))
    as IH'.
  { apply IH. intros z Hz. apply Hle. by right. }
  rewrite (filter_cons _ y), IH', !filter_cons.
  destruct (decide (P x)) as [Hx|Hx], (decide (P y)) as [Hy|Hy]; try done.
  assert (compareFn x y ≤ 0) by (apply Hle; [by left|done..]). lia.
Qed.

Lemma Array_sort_filter (P : A → Prop) `{∀ x, Decision (P x)}
    (l : list A) :
  (∀ x y, P x → P y → compareFn x y ≤ 0) →
  filter P (JS.Array_sort compareFn l) = filter P l.
Proof.
  intros Hle. induction l as [|x l IH]; [done|].
  unfold JS.Array_sort in *. simpl.
  rewrite sort_insert_filter by auto.
  by rewrite !filter_cons, IH.
Qed.

End ArraySortFacts.

(** Positions in a strongly sorted list follow the relation. *)
Lemma StronglySorted_lookup_lt {A} (R : relation A) (l : list A)
    (i j : nat) (a b : A) :
  StronglySorted R l → l !! i = Some a → l !! j = Some b → (i < j)%nat →
  R a b.
Proof.
  intros Hl. revert i j. induction Hl as [|x l Hl IH Hx]; [done|].
  intros [|i] [|j] Ha Hb Hij; try lia; simpl in *.
  - injection Ha as ->. rewrite Forall_forall in Hx.
    apply Hx. by eapply list_elem_of_lookup_2.
  - apply (IH i j); [done..|lia].
Qed.

Lemma filter_none {A} (P : A → Prop) `{∀ x, Decision (P x)} (l : list A) :
  Forall (λ x, ¬ P x) l → filter P l = [].
Proof.
  induction 1 as [|x l Hx Hl IH]; [done|].
  by rewrite filter_cons_False.
Qed.

Lemma filter_all {A} (P : A → Prop) `{∀ x, Decision (P x)} (l : list A) :
  Forall P l → filter P l = l.
Proof.
  induction 1 as [|x l Hx Hl IH]; [done|].
  by rewrite filter_cons_True, IH.
Qed.

(** A sorted list splits into the elements of a downward-closed class
    followed by the others. *)
Lemma StronglySorted_split_filter {A} (R : relation A) (Q : A → Prop)
    `{∀ x, Decision (Q x)} (l : list A) :
  (∀ a b, R a b → Q b → Q a) →
  StronglySorted R l →
  l = filter Q l ++ filter (λ x, ¬ Q x) l.
Proof.
  intros Hdown. induction 1 as [|x l Hl IH Hx]; [done|].
  rewrite !filter_cons.
  destruct (decide (Q x)) as [HQ|HQ].
  - rewrite decide_False by tauto. simpl. by rewrite <-IH.
  - rewrite decide_True by done.
    assert (Forall (λ y, ¬ Q y) l) as Hnone.
    { eapply Forall_impl; [exact Hx|]. intros y Hy ?. apply HQ. eauto. }
    by rewrite (filter_none Q l), (filter_all _ l).
Qed.


(** ** The comparator of the hotline list *)

Section Comparator.
Variable sortKey : string → string.

Lemma sort_inj (c1 c2 : THotlineCategory) : sort c1 = sort c2 → c1 = c2.
Proof. by destruct c1, c2. Qed.

Lemma string_compare_refl (s : string) : String.compare s s = Eq.
Proof.
  pose proof (String.compare_antisym s s) as Hs.
  by destruct (String.compare s s).
Qed.

Lemma localeCompare_antisym (a b : string) :
  localeCompare sortKey b a = - localeCompare sortKey a b.
Proof.
  unfold localeCompare.
  rewrite (String.compare_antisym (sortKey b) (sortKey a)).
  by destruct (String.compare (sortKey a) (sortKey b)).
Qed.

Lemma localeCompare_same_key (a b : string) :
  sortKey a = sortKey b → localeCompare sortKey a b = 0.
Proof.
  intros Hk. unfold localeCompare. by rewrite Hk, string_compare_refl.
Qed.

Lemma localeCompare_le_iff (a b : string) :
  localeCompare sortKey a b ≤ 0 ↔ String.le (sortKey a) (sortKey b).
Proof.
  unfold localeCompare, String.le, String.leb.
  destruct (String.compare (sortKey a) (sortKey b)); simpl; split;
    first [done | lia].
Qed.

Lemma localeCompare_trans (a b c : string) :
  localeCompare sortKey a b ≤ 0 → localeCompare sortKey b c ≤ 0 →
  localeCompare sortKey a c ≤ 0.
Proof. rewrite !localeCompare_le_iff. apply transitivity. Qed.

Lemma compareHotlines_antisym (a b : Hotline) :
  compareHotlines sortKey b a = - compareHotlines sortKey a b.
Proof.
  unfold compareHotlines.
  repeat case_bool_decide; try lia. apply localeCompare_antisym.
Qed.

Lemma compareHotlines_le_iff (a b : Hotline) :
  compareHotlines sortKey a b ≤ 0 ↔ inOrder sortKey a b.
Proof.
  unfold compareHotlines, inOrder. case_bool_decide as Hd.
  - split; [lia|]. intros [?|[Hc _]]; [lia|]. rewrite Hc in Hd. lia.
  - assert (category a = category b) by (apply sort_inj; lia).
    split; [by right|]. intros [?|[_ ?]]; [lia|done].
Qed.

Lemma compareHotlines_same (a b : Hotline) :
  category a = category b →
  sortKey (hotlineName a) = sortKey (hotlineName b) →
  compareHotlines sortKey a b = 0.
Proof.
  intros Hc Hk. unfold compareHotlines. rewrite Hc, Z.sub_diag.
  rewrite bool_decide_eq_false_2 by lia. by apply localeCompare_same_key.
Qed.

Lemma compareHotlines_total (a b : Hotline) :
  0 < compareHotlines sortKey a b → compareHotlines sortKey b a ≤ 0.
Proof. rewrite (compareHotlines_antisym a b). lia. Qed.

Lemma inOrder_trans (a b c : Hotline) :
  inOrder sortKey a b → inOrder sortKey b c → inOrder sortKey a c.
Proof.
  unfold inOrder. intros [Hab|[Hab Hn]] [Hbc|[Hbc Hn']].
  - left. lia.
  - left. by rewrite <-Hbc.
  - left. by rewrite Hab.
  - right. split; [congruence|]. by eapply localeCompare_trans.
Qed.

Lemma compareHotlines_trans (a b c : Hotline) :
  compareHotlines sortKey a b ≤ 0 → compareHotlines sortKey b c ≤ 0 →
  compareHotlines sortKey a c ≤ 0.
Proof. rewrite !compareHotlines_le_iff. apply inOrder_trans. Qed.

Lemma sorted_inOrder (l : list Hotline) :
  StronglySorted (inOrder sortKey)
    (JS.Array_sort (compareHotlines sortKey) l).
Proof.
  pose proof (Array_sort_sorted (compareHotlines sortKey)
                compareHotlines_total compareHotlines_trans l) as Hs.
  induction Hs as [|x l' Hl IH Hx]; constructor; [done|].
  eapply Forall_impl; [exact Hx|]. intros y. apply compareHotlines_le_iff.
Qed.

End Comparator.

(** ** The two filtering steps *)

Section FilterSteps.

Lemma filterThrowing_total {A} (f : A → bool) (l : list A) :
  filterThrowing (λ x, Some (f x)) l = Some (filter (λ x, f x) l).
Proof.
  induction l as [|x l IH]; [done|]. simpl. rewrite IH. simpl.
  rewrite filter_cons. by destruct (f x).
Qed.

Lemma filterThrowing_throws {A} (l : list A) :
  filterThrowing (λ _, None) l = match l with [] => Some [] | _ => None end.
Proof. by destruct l. Qed.

(** The table of the code and the sets the specification lists agree. *)
Lemma hotlineTypeMap_lookup (c : string) :
  hotlineTypeMap !! c = denotedCategories_spec c.
Proof.
  unfold hotlineTypeMap, denotedCategories_spec. simpl.
  rewrite !lookup_insert, lookup_empty.
  repeat case_decide; repeat case_bool_decide; congruence.
Qed.

Lemma elem_of_namedCategories (c : string) :
  c ∈ namedCategories_spec ↔
  c = "All Hotlines" ∨ is_Some (denotedCategories_spec c).
Proof.
  unfold namedCategories_spec. split.
  - rewrite !elem_of_cons, elem_of_nil.
    intros [->|[->|[->|[->|[->|[]]]]]]; [by left|right; by eexists..].
  - intros [->|[cats Hcats]]; [by left|].
    unfold denotedCategories_spec in Hcats.
    repeat (case_bool_decide;
            [subst c; rewrite !elem_of_cons; tauto|]).
    done.
Qed.

Lemma categorySelected_named fo (selected : list Hotline) :
  f_category fo ∈ namedCategories_spec →
  categorySelected fo selected
  = Some (filter (λ h, categoryKeeps fo h) selected).
Proof.
  intros Hc. unfold categorySelected, categoryKeeps.
  case_bool_decide as Hall.
  - apply elem_of_namedCategories in Hc as [?|[cats Hcats]]; [done|].
    rewrite hotlineTypeMap_lookup, Hcats. simpl.
    apply (filterThrowing_total
             (λ h, bool_decide (category h ∈ cats))).
  - f_equal. symmetry. apply filter_all. by apply Forall_true.
Qed.

Lemma categorySelected_unnamed fo (selected : list Hotline) :
  f_category fo ∉ namedCategories_spec →
  hotlineTypeMap !! f_category fo = None
  ∧ categorySelected fo selected
    = match selected with [] => Some [] | _ => None end.
Proof.
  intros Hc. rewrite elem_of_namedCategories in Hc.
  assert (f_category fo ≠ "All Hotlines") as Hall by tauto.
  assert (hotlineTypeMap !! f_category fo = None) as Hnone.
  { rewrite hotlineTypeMap_lookup.
    destruct (denotedCategories_spec (f_category fo)) eqn:Hd; [|done].
    destruct Hc. right. by eexists. }
  split; [done|]. unfold categorySelected.
  rewrite bool_decide_eq_true_2, Hnone by done. simpl.
  apply filterThrowing_throws.
Qed.

Lemma filter_kept fo (hs : list Hotline) :
  filter (λ h, categoryKeeps fo h) (selectedHotlines hs fo)
  = filter (λ h, kept fo h) hs.
Proof.
  unfold selectedHotlines, kept. rewrite list_filter_filter.
  apply list_filter_iff. intros h.
  rewrite andb_True. tauto.
Qed.

Lemma sortedSelectedHotlines_named sortKey fo (hs : list Hotline) :
  f_category fo ∈ namedCategories_spec →
  sortedSelectedHotlines sortKey hs fo
  = Some (JS.Array_sort (compareHotlines sortKey)
            (filter (λ h, kept fo h) hs)).
Proof.
  intros Hc. unfold sortedSelectedHotlines.
  by rewrite (categorySelected_named fo _ Hc), filter_kept.
Qed.

(** Whenever the engine returns, it returns the kept hotlines sorted. *)
Lemma sortedSelectedHotlines_Some sortKey fo (hs out : list Hotline) :
  sortedSelectedHotlines sortKey hs fo = Some out →
  out = JS.Array_sort (compareHotlines sortKey)
          (filter (λ h, kept fo h) hs).
Proof.
  destruct (decide (f_category fo ∈ namedCategories_spec)) as [Hc|Hc].
  - rewrite sortedSelectedHotlines_named by done. by intros [= <-].
  - unfold sortedSelectedHotlines.
    destruct (categorySelected_unnamed fo (selectedHotlines hs fo) Hc)
      as [_ ->].
    rewrite <-filter_kept.
    destruct (selectedHotlines hs fo); [|done]. by intros [= <-].
Qed.

(** Whether the engine returns does not depend on the input order. *)
Lemma sortedSelectedHotlines_is_Some_perm sortKey fo
    (hs hs' : list Hotline) :
  hs' ≡ₚ hs →
  is_Some (sortedSelectedHotlines sortKey hs fo) →
  is_Some (sortedSelectedHotlines sortKey hs' fo).
Proof.
  intros Hperm.
  destruct (decide (f_category fo ∈ namedCategories_spec)) as [Hc|Hc].
  - rewrite !sortedSelectedHotlines_named by done. by eexists.
  - unfold sortedSelectedHotlines.
    destruct (categorySelected_unnamed fo (selectedHotlines hs fo) Hc)
      as [_ ->].
    destruct (categorySelected_unnamed fo (selectedHotlines hs' fo) Hc)
      as [_ ->].
    assert (selectedHotlines hs' fo ≡ₚ selectedHotlines hs fo) as Hsel.
    { unfold selectedHotlines. by rewrite Hperm. }
    destruct (selectedHotlines hs fo); [|by intros [? [=]]].
    apply Permutation_nil_r in Hsel as ->. by eexists.
Qed.

End FilterSteps.


(** ** Ordering of the rendered list *)

(** C4, as stated, fails: two police hotlines named PNP and pnp have
    distinct (category, name) pairs, yet their names compare equal and the
    output keeps whichever order the input had. *)
Lemma case_variants_follow_input_order :
  (category upperHotline, hotlineName upperHotline)
  ≠ (category lowerHotline, hotlineName lowerHotline)
  ∧ sortedSelectedHotlines caselessKey [upperHotline; lowerHotline]
      initialFilterOptions
    = Some [upperHotline; lowerHotline]
  ∧ sortedSelectedHotlines caselessKey [lowerHotline; upperHotline]
      initialFilterOptions
    = Some [lowerHotline; upperHotline].
Proof. split; [by intros [=]|]. by vm_compute. Qed.

(** C4 (amended): for a category filter among the five named values the
    engine returns a list, and whenever it returns one, that list is the
    kept hotlines sorted by the rank police 0, medical 1, fire 2,
    government 3, utility 4, ties broken by the case-insensitive comparison
    of the names.  A hotline that compares lower than another - a lower
    rank, or the same rank and a name that compares lower - stands before
    it whatever the input order, and when no two kept hotlines compare
    equal every arrangement of the input gives the same output.  Hotlines
    that compare equal among themselves - the same category and names of
    the same collation key, as names that differ only in case are, in
    particular identical names - keep their relative input order. *)
Theorem hotlines_sorted_stably (sortKey : string → string)
    (hs : list Hotline) (fo : FilterOptions) :
  sort <$> [police_hotlines; medical_hotlines; fire_hotlines;
            government_hotlines; utility_hotlines]
  = [0; 1; 2; 3; 4]
  ∧ (f_category fo ∈ namedCategories_spec →
     is_Some (sortedSelectedHotlines sortKey hs fo))
  ∧ ((∀ s, sortKey (JS.toLowerCase s) = sortKey s) →
     ∀ a b, category a = category b →
            JS.toLowerCase (hotlineName a) = JS.toLowerCase (hotlineName b) →
            compareHotlines sortKey a b = 0)
  ∧ ∀ out,
      sortedSelectedHotlines sortKey hs fo = Some out →
      out ≡ₚ filter (λ h, kept fo h) hs
      ∧ StronglySorted (inOrder sortKey) out
      ∧ (∀ i j a b,
           out !! i = Some a → out !! j = Some b →
           compareHotlines sortKey a b < 0 → (i < j)%nat)
      ∧ (∀ hs',
           hs' ≡ₚ hs →
           (∀ a b, a ∈ out → b ∈ out →
                   compareHotlines sortKey a b = 0 → a = b) →
           sortedSelectedHotlines sortKey hs' fo = Some out)
      ∧ (∀ P : Hotline → bool,
           (∀ a b, P a → P b → compareHotlines sortKey a b = 0) →
           filter (λ h, P h) out
           = filter (λ h, P h) (filter (λ h, kept fo h) hs))
      ∧ (∀ c n,
           filter (λ h, category h = c ∧ hotlineName h = n) out
           = filter (λ h, category h = c ∧ hotlineName h = n)
               (filter (λ h, kept fo h) hs)).
Proof.
  split_and!.
  - reflexivity.
  - intros Hc. rewrite sortedSelectedHotlines_named by done. by eexists.
  - intros Hcase a b Hcat Hname. apply compareHotlines_same; [done|].
    by rewrite <-(Hcase (hotlineName a)), <-(Hcase (hotlineName b)), Hname.
  - intros out Hrun.
    pose proof (sortedSelectedHotlines_Some _ _ _ _ Hrun) as ->.
    set (pre := filter (λ h, kept fo h) hs).
    pose proof (sorted_inOrder sortKey pre) as Hsorted.
    split_and!.
    + apply Array_sort_Permutation.
    + exact Hsorted.
    + intros i j a b Ha Hb Hlt.
      destruct (decide (i < j)%nat) as [|Hge]; [done|]. exfalso.
      destruct (decide (i = j)) as [->|Hne].
      * rewrite Ha in Hb. injection Hb as ->.
        rewrite compareHotlines_same in Hlt by done. lia.
      * assert (inOrder sortKey b a) as Hba.
        { apply (StronglySorted_lookup_lt _ _ j i _ _ Hsorted);
            [done..|lia]. }
        apply compareHotlines_le_iff in Hba.
        rewrite (compareHotlines_antisym sortKey a b) in Hba. lia.
    + intros hs' Hperm Hdistinct.
      destruct (sortedSelectedHotlines_is_Some_perm sortKey fo hs hs' Hperm)
        as [out' Hrun']; [by eexists|].
      rewrite Hrun'. f_equal.
      pose proof (sortedSelectedHotlines_Some _ _ _ _ Hrun') as ->.
      apply (StronglySorted_unique_strong (inOrder sortKey));
        [|apply sorted_inOrder|exact Hsorted|].
      * intros x1 x2 Hx1 Hx2 H12%compareHotlines_le_iff
                               H21%compareHotlines_le_iff.
        apply Hdistinct; [|done|].
        -- revert Hx1. rewrite !Array_sort_Permutation.
           unfold pre. by rewrite Hperm.
        -- rewrite (compareHotlines_antisym sortKey x1 x2) in H21. lia.
      * rewrite !Array_sort_Permutation. unfold pre. by rewrite Hperm.
    + intros P HP. apply Array_sort_filter.
      intros x y Hx Hy. by rewrite HP.
    + intros c n. apply Array_sort_filter.
      intros x y [Hcx Hnx] [Hcy Hny].
      rewrite compareHotlines_same; [done|congruence..].
Qed.

(** Four hotlines, two of them with names that differ only in case. *)
Lemma hotlines_sorted_stably_witness :
  compareHotlines caselessKey upperHotline lowerHotline = 0
  ∧ ∃ out,
      sortedSelectedHotlines caselessKey
        [cebuHotline; lowerHotline; manilaHotline; upperHotline]
        initialFilterOptions
      = Some out
      ∧ StronglySorted (inOrder caselessKey) out
      ∧ filter (λ h, category h = police_hotlines ∧ hotlineName h = "pnp")
          out
        = [lowerHotline].
Proof.
  destruct (hotlines_sorted_stably caselessKey
              [cebuHotline; lowerHotline; manilaHotline; upperHotline]
              initialFilterOptions)
    as (_ & Hruns & Hcase & Hout).
  split.
  - apply Hcase; [apply toLowerCase_idemp|reflexivity..].
  - destruct Hruns as [out Hrun]; [apply list_elem_of_here|].
    destruct (Hout out Hrun) as (_ & Hsorted & _ & _ & _ & Hstable).
    exists out. split_and!; [exact Hrun|exact Hsorted|].
    rewrite Hstable. reflexivity.
Defined.


(** ** The category filter *)

Section CategoryFilter.
Variable sortKey : string → string.

Lemma denoted_named (c : string) (cats : list THotlineCategory) :
  denotedCategories_spec c = Some cats →
  c ∈ namedCategories_spec ∧ c ≠ "All Hotlines".
Proof.
  intros Hc. split.
  - apply elem_of_namedCategories. right. by eexists.
  - by intros ->.
Qed.

Lemma categoryKeeps_denoted fo cats h :
  denotedCategories_spec (f_category fo) = Some cats →
  categoryKeeps fo h ↔ category h ∈ cats.
Proof.
  intros Hc. destruct (denoted_named _ _ Hc) as [_ Hall].
  unfold categoryKeeps.
  rewrite bool_decide_eq_true_2, hotlineTypeMap_lookup, Hc by done.
  apply bool_decide_spec.
Qed.

(** Inside one category the order is the order of the names. *)
Lemma sorted_one_category (c : THotlineCategory) (l : list Hotline) :
  Forall (λ h, category h = c) l →
  StronglySorted (inOrder sortKey) l →
  StronglySorted (nameOrder sortKey) l.
Proof.
  intros Hcat. induction 1 as [|x l Hl IH Hx]; [constructor|].
  apply Forall_cons in Hcat as [Hxc Hlc].
  constructor; [by apply IH|].
  rewrite Forall_forall in Hx, Hlc |- *. intros y Hy.
  destruct (Hx y Hy) as [Hlt|[_ Hname]]; [|done].
  rewrite Hxc, (Hlc y Hy) in Hlt. lia.
Qed.

Lemma police_first (a b : Hotline) :
  inOrder sortKey a b → category b = police_hotlines →
  category a = police_hotlines.
Proof.
  intros [Hlt|[Heq _]] Hb; [|congruence].
  rewrite Hb in Hlt. by destruct (category a).
Qed.

End CategoryFilter.

(** C8: for each category filter other than All Hotlines the engine keeps
    exactly the hotlines, among those the location filter lets through,
    whose category is in the set the filter denotes.  Under Emergency
    Hotlines the result is the police hotlines followed by the fire
    hotlines, each group in the order of the names. *)
Theorem category_filter_keeps_denoted_set (sortKey : string → string)
    (hs : list Hotline) (fo : FilterOptions)
    (cats : list THotlineCategory) :
  denotedCategories_spec (f_category fo) = Some cats →
  ∃ out,
    sortedSelectedHotlines sortKey hs fo = Some out
    ∧ out ≡ₚ filter (λ h, category h ∈ cats) (selectedHotlines hs fo)
    ∧ (∀ h, h ∈ out ↔ h ∈ selectedHotlines hs fo ∧ category h ∈ cats)
    ∧ (f_category fo = "Emergency Hotlines" →
       ∃ police fire,
         out = police ++ fire
         ∧ Forall (λ h, category h = police_hotlines) police
         ∧ Forall (λ h, category h = fire_hotlines) fire
         ∧ StronglySorted (nameOrder sortKey) police
         ∧ StronglySorted (nameOrder sortKey) fire).
Proof.
  intros Hc. destruct (denoted_named _ _ Hc) as [Hnamed Hall].
  set (selected := selectedHotlines hs fo).
  set (pre := filter (λ h, category h ∈ cats) selected).
  assert (categorySelected fo selected = Some pre) as Hstep.
  { rewrite categorySelected_named by done. f_equal.
    apply list_filter_iff. intros h. by apply categoryKeeps_denoted. }
  exists (JS.Array_sort (compareHotlines sortKey) pre).
  assert (∀ h, h ∈ JS.Array_sort (compareHotlines sortKey) pre
               ↔ h ∈ selected ∧ category h ∈ cats) as Hmem.
  { intros h. rewrite Array_sort_Permutation. unfold pre.
    rewrite list_elem_of_filter. tauto. }
  split_and!.
  - unfold sortedSelectedHotlines. fold selected. by rewrite Hstep.
  - apply Array_sort_Permutation.
  - exact Hmem.
  - intros Hem. rewrite Hem in Hc. injection Hc as <-.
    pose proof (sorted_inOrder sortKey pre) as Hsorted.
    set (out := JS.Array_sort (compareHotlines sortKey) pre) in *.
    pose proof (StronglySorted_split_filter (inOrder sortKey)
                  (λ h, category h = police_hotlines) out
                  (police_first sortKey) Hsorted) as Hsplit.
    set (police := filter (λ h, category h = police_hotlines) out) in *.
    set (fire := filter (λ h, ¬ category h = police_hotlines) out) in *.
    assert (Forall (λ h, category h = police_hotlines) police) as Hpolice.
    { apply Forall_forall. intros h Hh.
      by apply list_elem_of_filter in Hh as [? _]. }
    assert (Forall (λ h, category h = fire_hotlines) fire) as Hfire.
    { apply Forall_forall. intros h Hh.
      apply list_elem_of_filter in Hh as [Hnot Hin].
      apply Hmem in Hin as [_ Hin].
      rewrite !elem_of_cons, elem_of_nil in Hin. tauto. }
    exists police, fire. rewrite Hsplit in Hsorted.
    split_and!; [done..| |].
    + eapply sorted_one_category; [exact Hpolice|].
      by eapply StronglySorted_app_1_l.
    + eapply sorted_one_category; [exact Hfire|].
      by eapply StronglySorted_app_1_r.
Qed.

(** Emergency Hotlines on two police hotlines and a fire hotline. *)
Lemma category_filter_keeps_denoted_set_witness :
  ∃ out,
    sortedSelectedHotlines caselessKey
      [cebuHotline; lowerHotline; manilaHotline]
      (setCategory "Emergency Hotlines" initialFilterOptions)
    = Some out
    ∧ ∃ police fire,
        out = police ++ fire
        ∧ Forall (λ h, category h = police_hotlines) police
        ∧ Forall (λ h, category h = fire_hotlines) fire.
Proof.
  destruct (category_filter_keeps_denoted_set caselessKey
              [cebuHotline; lowerHotline; manilaHotline]
              (setCategory "Emergency Hotlines" initialFilterOptions)
              [police_hotlines; fire_hotlines])
    as (out & Hrun & _ & _ & Hemergency).
  - reflexivity.
  - exists out. split; [exact Hrun|].
    destruct Hemergency as (police & fire & Hout & Hp & Hf & _);
      [reflexivity|].
    by exists police, fire.
Defined.

(** Scenario 4 of the specification, evaluated. *)
Example scenario_emergency_hotlines :
  sortedSelectedHotlines caselessKey
    [cebuHotline; lowerHotline; manilaHotline;
     exampleHotline "Clinic" medical_hotlines "Manila" "Metro Manila"]
    (setCategory "Emergency Hotlines" initialFilterOptions)
  = Some [manilaHotline; lowerHotline; cebuHotline].
Proof. by vm_compute. Qed.

(** ** Totality of the category step *)

(** C10: the category step is total - it returns a list for every list of
    hotlines it is given - exactly when the category value is one of the
    five named ones, and these are exactly the values reachable through
    the category buttons.  Under that precondition the lookup in the
    category table, made when the value is not All Hotlines, is defined,
    and the engine returns.  Any other value is not All Hotlines and has
    no entry, and the step then reads the absent entry and throws on every
    list that holds a hotline. *)
Theorem category_step_total_iff_named (fo : FilterOptions) :
  (∀ c, c ∈ reachableCategories ↔ c ∈ namedCategories_spec)
  ∧ ((∀ selected, is_Some (categorySelected fo selected))
     ↔ f_category fo ∈ namedCategories_spec)
  ∧ (f_category fo ∈ namedCategories_spec →
     (f_category fo ≠ "All Hotlines" →
      is_Some (hotlineTypeMap !! f_category fo))
     ∧ ∀ sortKey hs, is_Some (sortedSelectedHotlines sortKey hs fo))
  ∧ (f_category fo ∉ namedCategories_spec →
     f_category fo ≠ "All Hotlines"
     ∧ hotlineTypeMap !! f_category fo = None
     ∧ ∀ hotline selected, categorySelected fo (hotline :: selected) = None).
Proof.
  assert (f_category fo ∉ namedCategories_spec →
          f_category fo ≠ "All Hotlines"
          ∧ hotlineTypeMap !! f_category fo = None
          ∧ ∀ hotline selected,
              categorySelected fo (hotline :: selected) = None) as Hunnamed.
  { intros Hc. split_and!.
    - intros Hall. apply Hc. rewrite Hall. apply list_elem_of_here.
    - by destruct (categorySelected_unnamed fo [] Hc).
    - intros hotline selected.
      by destruct (categorySelected_unnamed fo (hotline :: selected) Hc)
        as [_ ->]. }
  split_and!.
  - intros c. unfold reachableCategories, namedCategories_spec.
    vm_compute (_ :: _ :: fmap _ _). rewrite !elem_of_cons. tauto.
  - split.
    + intros Htotal.
      destruct (decide (f_category fo ∈ namedCategories_spec)) as [|Hc];
        [done|].
      destruct (Hunnamed Hc) as (_ & _ & Hthrows).
      destruct (Htotal [manilaHotline]) as [l Hl].
      by rewrite Hthrows in Hl.
    + intros Hc selected. rewrite categorySelected_named by done. by eexists.
  - intros Hc. split.
    + intros Hall. rewrite hotlineTypeMap_lookup.
      apply elem_of_namedCategories in Hc. tauto.
    + intros sortKey hs. rewrite sortedSelectedHotlines_named by done.
      by eexists.
  - exact Hunnamed.
Qed.

(** The step under Medical Hotlines, and under a value no button sets. *)
Lemma category_step_total_iff_named_witness :
  is_Some (hotlineTypeMap !! "Medical Hotlines")
  ∧ is_Some (sortedSelectedHotlines caselessKey [manilaHotline; cebuHotline]
               (setCategory "Medical Hotlines" initialFilterOptions))
  ∧ categorySelected (setCategory "Barangay Hotlines" initialFilterOptions)
      [manilaHotline; cebuHotline]
    = None.
Proof.
  destruct (category_step_total_iff_named
              (setCategory "Medical Hotlines" initialFilterOptions))
    as (_ & _ & Hnamed & _).
  destruct (category_step_total_iff_named
              (setCategory "Barangay Hotlines" initialFilterOptions))
    as (_ & _ & _ & Hunnamed).
  destruct Hnamed as [Hlookup Hruns].
  { apply list_elem_of_further, list_elem_of_further, list_elem_of_here. }
  destruct Hunnamed as (_ & _ & Hthrows).
  { intros Hin. apply elem_of_namedCategories in Hin as [[=]|[cats [=]]]. }
  split_and!.
  - apply Hlookup. discriminate.
  - apply Hruns.
  - apply Hthrows.
Defined.


(** ** The city filter *)

Section CityFilter.

Lemma includes_app_sep (sep : ascii) (a b : string) :
  JS.includes sep (a +:+ String sep b) = true.
Proof.
  induction a as [|d a IH].
  - rewrite append_empty_l. simpl. by rewrite bool_decide_eq_true_2.
  - rewrite append_cons. simpl. rewrite IH. apply orb_true_r.
Qed.

Lemma split_no_sep (sep : ascii) (s : string) :
  JS.includes sep s = false → JS.split sep s = [s].
Proof.
  induction s as [|d s IH]; [done|]. simpl.
  intros [Hd Hs]%orb_false_elim. rewrite Hd, IH; done.
Qed.

Lemma split_app_sep (sep : ascii) (a b : string) :
  JS.includes sep a = false →
  JS.split sep (a +:+ String sep b) = a :: JS.split sep b.
Proof.
  induction a as [|d a IH].
  - intros _. rewrite append_empty_l. simpl.
    by rewrite bool_decide_eq_true_2.
  - rewrite append_cons. simpl. intros [Hd Ha]%orb_false_elim.
    by rewrite Hd, IH.
Qed.

(** The part before the first separator, or the whole text. *)
Lemma split_head (sep : ascii) (p t : string) :
  JS.includes sep p = false →
  t = "" ∨ (∃ t', t = String sep t') →
  head (JS.split sep (p +:+ t)) = Some p.
Proof.
  intros Hp [->|[t' ->]].
  - by rewrite append_empty_r, split_no_sep.
  - by rewrite split_app_sep.
Qed.

Lemma extract_composite (c p t : string) :
  JS.includes "|" c = false →
  JS.includes "|" p = false →
  t = "" ∨ (∃ t', t = String "|"%char t') →
  extractLocationFromFilter (c +:+ "|" +:+ p +:+ t)
  = {| el_city := c; el_province := Some p |}.
Proof.
  intros Hc Hp Ht. unfold extractLocationFromFilter.
  change (c +:+ "|" +:+ p +:+ t) with (c +:+ String "|"%char (p +:+ t)).
  rewrite includes_app_sep, split_app_sep by done.
  by rewrite split_head.
Qed.

Lemma extract_bare (s : string) :
  JS.includes "|" s = false →
  extractLocationFromFilter s = {| el_city := s; el_province := None |}.
Proof. intros Hs. unfold extractLocationFromFilter. by rewrite Hs. Qed.

Lemma truthy_true (s : string) : JS.truthy s = true ↔ s ≠ "".
Proof.
  unfold JS.truthy. rewrite negb_true_iff, bool_decide_eq_false. done.
Qed.

Lemma truthy_false (s : string) : JS.truthy s = false ↔ s = "".
Proof.
  unfold JS.truthy. rewrite negb_false_iff, bool_decide_eq_true. done.
Qed.

(** A condition of the form [if (f) { if (x !== f) return false }]. *)
Lemma level_check (f x : string) :
  JS.truthy f && negb (bool_decide (normalizeString x = normalizeString f))
  = false
  ↔ f = "" ∨ normalizeString x = normalizeString f.
Proof.
  rewrite andb_false_iff, truthy_false, negb_false_iff, bool_decide_eq_true.
  done.
Qed.

(** What the callback asks of a hotline once a city is set. *)
Lemma locationCallback_city fo h :
  f_city fo ≠ "" →
  locationCallback fo h ↔
  regionProvinceOk fo h
  ∧ normalizeString (city h)
    = normalizeString (el_city (extractLocationFromFilter (f_city fo)))
  ∧ match el_province (extractLocationFromFilter (f_city fo)) with
    | Some p => p = "" ∨ normalizeString (province h) = normalizeString p
    | None => True
    end.
Proof.
  intros Hcity%truthy_true. unfold locationCallback, regionProvinceOk.
  rewrite Hcity.
  destruct (JS.truthy (f_region fo) && _) eqn:Hr.
  { split; [done|]. intros ([Hr' _] & _). apply level_check in Hr'.
    congruence. }
  destruct (JS.truthy (f_province fo) && _) eqn:Hp.
  { split; [done|]. intros ([_ Hp'] & _). apply level_check in Hp'.
    congruence. }
  apply level_check in Hr, Hp.
  destruct (el_province _) as [p|]; simpl.
  - destruct (JS.truthy p) eqn:Htp.
    + apply truthy_true in Htp.
      rewrite andb_True, !bool_decide_spec. tauto.
    + apply truthy_false in Htp. rewrite bool_decide_spec. tauto.
  - rewrite bool_decide_spec. tauto.
Qed.

End CityFilter.

(** C3, as stated, fails: the filter value manila| contains the separator
    and parses to the city manila and an empty province, yet a hotline of
    that city in the province Metro Cebu, whose normalized province is not
    the empty one, is kept. *)
Lemma empty_province_part_matches_city_only :
  JS.includes "|" "manila|" = true
  ∧ "manila|" = "manila" +:+ "|" +:+ ""
  ∧ normalizeString (province cebuHotline) ≠ normalizeString ""
  ∧ selectedHotlines [cebuHotline] (cityFilter "manila|") = [cebuHotline]
  ∧ sortedSelectedHotlines caselessKey [cebuHotline] (cityFilter "manila|")
    = Some [cebuHotline].
Proof. split_and!; [done|done|by intros [=]|by vm_compute..]. Qed.

(** C3 (amended): with a city filter set, a hotline is kept exactly when it
    is in the list, passes the region and province conditions and matches
    the city filter.  A value with the separator whose province part - the
    text up to the next separator or the end - is not empty asks that both
    the normalized city and the normalized province match; a value with
    the separator and an empty province part, like a value without
    separator, asks only that the normalized city match.  With the filter
    manila|metro manila, of two hotlines of the city Manila, one in Metro
    Manila and one in Metro Cebu, only the first is returned. *)
Theorem city_filter_matching (hs : list Hotline) (fo : FilterOptions)
    (h : Hotline) :
  f_city fo ≠ "" →
  (∀ c p t,
     f_city fo = c +:+ "|" +:+ p +:+ t →
     JS.includes "|" c = false → JS.includes "|" p = false →
     t = "" ∨ (∃ t', t = String "|"%char t') →
     (p ≠ "" →
      (h ∈ selectedHotlines hs fo ↔
       h ∈ hs ∧ regionProvinceOk fo h
       ∧ normalizeString (city h) = normalizeString c
       ∧ normalizeString (province h) = normalizeString p))
     ∧ (p = "" →
        (h ∈ selectedHotlines hs fo ↔
         h ∈ hs ∧ regionProvinceOk fo h
         ∧ normalizeString (city h) = normalizeString c)))
  ∧ (JS.includes "|" (f_city fo) = false →
     (h ∈ selectedHotlines hs fo ↔
      h ∈ hs ∧ regionProvinceOk fo h
      ∧ normalizeString (city h) = normalizeString (f_city fo)))
  ∧ (∀ sortKey,
       sortedSelectedHotlines sortKey [manilaHotline; cebuHotline]
         (cityFilter "manila|metro manila")
       = Some [manilaHotline]).
Proof.
  intros Hcity.
  assert (h ∈ selectedHotlines hs fo ↔ h ∈ hs ∧ locationCallback fo h)
    as Hkept.
  { unfold selectedHotlines. rewrite list_elem_of_filter. tauto. }
  rewrite (locationCallback_city fo h Hcity) in Hkept.
  split_and!.
  - intros c p t Hfo Hc Hp Ht. rewrite Hkept, Hfo.
    rewrite (extract_composite c p t Hc Hp Ht). simpl.
    split; intros Hpe; tauto.
  - intros Hbare. rewrite Hkept, (extract_bare _ Hbare). simpl. tauto.
  - intros sortKey. reflexivity.
Qed.

(** The two hotlines of the city Manila under a composite and a bare
    filter. *)
Lemma city_filter_matching_witness :
  (manilaHotline ∈ selectedHotlines [manilaHotline; cebuHotline]
                     (cityFilter "manila|metro manila"))
  ∧ (cebuHotline ∉ selectedHotlines [manilaHotline; cebuHotline]
                     (cityFilter "manila|metro manila"))
  ∧ (cebuHotline ∈ selectedHotlines [manilaHotline; cebuHotline]
                     (cityFilter "manila")).
Proof.
  split_and!.
  - destruct (city_filter_matching [manilaHotline; cebuHotline]
                (cityFilter "manila|metro manila") manilaHotline)
      as (Hcomposite & _); [discriminate|].
    destruct (Hcomposite "manila" "metro manila" "") as [Hboth _];
      [reflexivity|reflexivity|reflexivity|by left|].
    apply Hboth; [discriminate|].
    split_and!; [apply list_elem_of_here|split; by left|reflexivity..].
  - destruct (city_filter_matching [manilaHotline; cebuHotline]
                (cityFilter "manila|metro manila") cebuHotline)
      as (Hcomposite & _); [discriminate|].
    destruct (Hcomposite "manila" "metro manila" "") as [Hboth _];
      [reflexivity|reflexivity|reflexivity|by left|].
    rewrite Hboth by discriminate. intros (_ & _ & _ & Hprovince).
    discriminate Hprovince.
  - destruct (city_filter_matching [manilaHotline; cebuHotline]
                (cityFilter "manila") cebuHotline)
      as (_ & Hbare & _); [discriminate|].
    apply Hbare; [reflexivity|].
    split_and!; [apply list_elem_of_further, list_elem_of_here
                |split; by left|reflexivity].
Defined.


(** * Further properties *)

(** ** Normalization *)

Section NormalizeFacts.

Lemma trimStart_trimEnd_comm (s : string) :
  JS.trimStart (JS.trimEnd s) = JS.trimEnd (JS.trimStart s).
Proof.
  induction s as [|c s IH]; [done|].
  destruct (JS.isWhiteSpace c) eqn:Hc.
  - simpl. rewrite Hc, <-IH.
    destruct (JS.trimEnd s) as [|d t]; [done|]. simpl. by rewrite Hc.
  - rewrite trimEnd_stop by done. simpl. rewrite Hc.
    by rewrite trimEnd_stop.
Qed.

Lemma trim_idemp (s : string) : JS.trim (JS.trim s) = JS.trim s.
Proof.
  unfold JS.trim.
  by rewrite trimStart_trimEnd_comm, trimStart_idemp, trimEnd_idemp.
Qed.

Lemma trim_toLowerCase (s : string) :
  JS.trim (JS.toLowerCase s) = JS.toLowerCase (JS.trim s).
Proof.
  unfold JS.trim. by rewrite trimStart_toLowerCase, trimEnd_toLowerCase.
Qed.

Lemma normalizeString_trimStart (s : string) :
  normalizeString (JS.trimStart s) = normalizeString s.
Proof.
  unfold normalizeString, JS.trim.
  by rewrite <-trimStart_toLowerCase, trimStart_idemp.
Qed.

Lemma normalizeString_trimEnd (s : string) :
  normalizeString (JS.trimEnd s) = normalizeString s.
Proof.
  unfold normalizeString, JS.trim.
  by rewrite <-trimEnd_toLowerCase, trimStart_trimEnd_comm, trimEnd_idemp.
Qed.

Lemma normalizeString_toLowerCase (s : string) :
  normalizeString (JS.toLowerCase s) = normalizeString s.
Proof. unfold normalizeString. by rewrite toLowerCase_idemp. Qed.

Lemma normalizeString_nonempty (s : string) :
  normalizeString s ≠ "" → s ≠ "".
Proof. by intros Hs ->. Qed.

End NormalizeFacts.

(** X1: normalization is idempotent, and it does not see case or the
    blanks around a string: normalizing the lower-cased or the trimmed
    string gives the same key, and a key is its own lower-cased and trimmed
    form. *)
Theorem normalizeString_insensitive (s : string) :
  normalizeString (normalizeString s) = normalizeString s
  ∧ normalizeString (JS.toLowerCase s) = normalizeString s
  ∧ normalizeString (JS.trim s) = normalizeString s
  ∧ JS.toLowerCase (normalizeString s) = normalizeString s
  ∧ JS.trim (normalizeString s) = normalizeString s.
Proof.
  split_and!.
  - apply normalizeString_idemp.
  - apply normalizeString_toLowerCase.
  - unfold JS.trim. by rewrite normalizeString_trimEnd, normalizeString_trimStart.
  - unfold normalizeString. by rewrite <-trim_toLowerCase, toLowerCase_idemp.
  - unfold normalizeString. apply trim_idemp.
Qed.


(** ** Keys of the lookup maps *)

Section MapKeys.
Implicit Types (md : IMetadataResponse).

Lemma provinceToRegionMap_lookup_Some md k v :
  provinceToRegionMap (Some md) !! k = Some v →
  ∃ region province,
    region ∈ regions (metadata md) ∧ province ∈ r_provinces region
    ∧ normalizeString (p_province province) = k
    ∧ v = normalizeString (r_name region).
Proof.
  rewrite provinceToRegionMap_pairs.
  intros [Hin|Hempty]%setAll_lookup_Some; [|done].
  apply elem_of_provincePairs in Hin as (region & province & ? & ? & -> & ->).
  by exists region, province.
Qed.

Lemma cityToLocationMap_lookup_None md cityKey :
  cityKey ∉ lf_key <$> allCities md →
  cityToLocationMap (Some md) !! cityKey = None.
Proof.
  intros Hnot. rewrite cityToLocationMap_pairs.
  rewrite setAll_lookup_notin; [done|].
  intros ([k loc] & -> & Hin)%list_elem_of_fmap. apply Hnot.
  apply elem_of_cityPairs in Hin as (region & province & city & ? & -> & _).
  apply list_elem_of_fmap.
  exists (cityEntry (r_name region) (p_province province) city).
  split; [done|]. apply elem_of_allCities. by exists region, province, city.
Qed.

End MapKeys.

(** X2: the keys of the province-to-region map are exactly the normalized
    names of the provinces the dataset lists, and the value under a key is
    the normalized name of a region that lists a province of that key.
    Before the metadata is loaded the map is empty. *)
Theorem provinceToRegionMap_keys (md : IMetadataResponse) (k : string) :
  (is_Some (provinceToRegionMap (Some md) !! k) ↔
   ∃ region province,
     region ∈ regions (metadata md) ∧ province ∈ r_provinces region
     ∧ normalizeString (p_province province) = k)
  ∧ (∀ v, provinceToRegionMap (Some md) !! k = Some v →
          ∃ region province,
            region ∈ regions (metadata md) ∧ province ∈ r_provinces region
            ∧ normalizeString (p_province province) = k
            ∧ v = normalizeString (r_name region))
  ∧ provinceToRegionMap None !! k = None.
Proof.
  split_and!; [split| |done].
  - intros [v (region & province & ? & ? & ? & _)%provinceToRegionMap_lookup_Some].
    by exists region, province.
  - intros (region & province & Hr & Hp & <-).
    destruct (provinceToRegionMap_listed md region province Hr Hp)
      as (owner & province' & _ & _ & _ & ->).
    by eexists.
  - apply provinceToRegionMap_lookup_Some.
Qed.

(** X3: a key that no map holds changes nothing it should not.  Selecting a
    city key that the dataset does not list only closes the city selector:
    the filter and the store stay as they were and no storage call is
    made.  Selecting a province key the dataset does not list sets that
    province with an empty region and no city. *)
Theorem unknown_keys_are_harmless (md : IMetadataResponse)
    (st : AppState) (key : string) :
  (key ∉ lf_key <$> allCities md →
   handleCityChange (Some md) key st = setCitySelectOpen false st
   ∧ filterOptions (handleCityChange (Some md) key st) = filterOptions st
   ∧ localStorage (handleCityChange (Some md) key st) = localStorage st
   ∧ storageCalls (handleCityChange (Some md) key st) = storageCalls st)
  ∧ handleCityChange None key st = setCitySelectOpen false st
  ∧ ((∀ region province,
        region ∈ regions (metadata md) → province ∈ r_provinces region →
        normalizeString (p_province province) ≠ key) →
     filterOptions (handleProvinceChange (Some md) key st)
     = {| f_region := ""; f_province := key; f_city := "";
          f_category := f_category (filterOptions st) |}).
Proof.
  split_and!.
  - intros Hnot. unfold handleCityChange.
    by rewrite (cityToLocationMap_lookup_None md key Hnot).
  - done.
  - intros Hnot. unfold handleProvinceChange.
    destruct (provinceToRegionMap (Some md) !! key) as [v|] eqn:Hv; [|done].
    apply provinceToRegionMap_lookup_Some in Hv
      as (region & province & Hr & Hp & Hk & _).
    by destruct (Hnot region province Hr Hp).
Qed.

(** A city key of another archipelago, and a province the NCR dataset does
    not list. *)
Lemma unknown_keys_are_harmless_witness :
  handleCityChange (Some ncrMetadata) "atlantis|nowhere" manilaSelected
  = setCitySelectOpen false manilaSelected
  ∧ filterOptions
      (handleProvinceChange (Some ncrMetadata) "nowhere" manilaSelected)
    = {| f_region := ""; f_province := "nowhere"; f_city := "";
         f_category := "All Hotlines" |}.
Proof.
  pose proof (unknown_keys_are_harmless ncrMetadata manilaSelected
                "atlantis|nowhere") as (Hcity & _ & _).
  pose proof (unknown_keys_are_harmless ncrMetadata manilaSelected
                "nowhere") as (_ & _ & Hprovince).
  split.
  - apply Hcity. vm_compute.
    intros Hin. repeat (apply elem_of_cons in Hin as [[=]|Hin]).
    by apply elem_of_nil in Hin.
  - rewrite Hprovince; [reflexivity|].
    intros region province Hr Hp.
    apply list_elem_of_singleton in Hr as ->.
    apply list_elem_of_singleton in Hp as ->. discriminate.
Defined.

(** ** What the selectors show after a selection *)

Section Labels.
Implicit Types (md : IMetadataResponse) (fo : FilterOptions).

Lemma Array_find_elem_of {A} (P : A → Prop) `{∀ x, Decision (P x)}
    (l : list A) (x : A) :
  x ∈ l → P x → ∃ y, Array_find P l = Some y ∧ y ∈ l ∧ P y.
Proof.
  intros Hx HP. unfold Array_find.
  destruct (list_find_elem_of P l x Hx HP) as [[i y] Hfind].
  rewrite Hfind. exists y. split; [done|].
  apply list_find_Some in Hfind as (Hi & Hy & _).
  split; [by eapply list_elem_of_lookup_2|done].
Qed.

Lemma append_nonempty_r (a b : string) : b ≠ "" → a +:+ b ≠ "".
Proof. destruct a; [done|]. by rewrite append_cons. Qed.

Lemma displayName_truthy (e : LocationFilter) md :
  e ∈ allCities md → JS.truthy (lf_displayName e) = true.
Proof.
  intros (region & province & city & _ & ->)%elem_of_allCities.
  apply truthy_true. simpl. apply append_nonempty_r.
  by change (" (" +:+ p_province province +:+ ")")
       with (String " "%char ("(" +:+ p_province province +:+ ")")).
Qed.

Lemma normalized_truthy (s : string) :
  normalizeString s ≠ "" → JS.truthy s = true.
Proof. intros Hs. apply truthy_true. by intros ->. Qed.

(** A filter that holds the normalized names of a listed city's region
    and province, and its key, offers that city. *)
Lemma locationFilters_offers md fo (region : Region) (province : Province)
    (city : string) :
  owns md region province city →
  f_region fo = normalizeString (r_name region) →
  f_province fo = normalizeString (p_province province) →
  cityEntry (r_name region) (p_province province) city
  ∈ locationFilters (Some md) fo.
Proof.
  intros Hown Hr Hp.
  assert (cityEntry (r_name region) (p_province province) city
          ∈ allCities md) as Hall.
  { apply elem_of_allCities. by exists region, province, city. }
  unfold locationFilters.
  destruct (JS.truthy (f_province fo)).
  { apply list_elem_of_filter. split; [|done]. simpl.
    by rewrite Hp, normalizeString_idemp. }
  destruct (JS.truthy (f_region fo)); [|done].
  apply list_elem_of_filter. split; [|done]. simpl.
  by rewrite Hr, normalizeString_idemp.
Qed.

Lemma cityLabel_offered md fo (region : Region) (province : Province)
    (city : string) :
  owns md region province city →
  f_region fo = normalizeString (r_name region) →
  f_province fo = normalizeString (p_province province) →
  f_city fo = normalizeString (city +:+ "|" +:+ p_province province) →
  ∃ e, e ∈ locationFilters (Some md) fo
       ∧ lf_key e = f_city fo
       ∧ cityLabel (Some md) fo = lf_displayName e.
Proof.
  intros Hown Hr Hp Hc.
  pose proof (locationFilters_offers md fo region province city Hown Hr Hp)
    as Hin.
  destruct (Array_find_elem_of
              (λ c, lf_key c = normalizeString (f_city fo))
              (locationFilters (Some md) fo) _ Hin) as (e & Hfind & He & Hk).
  { simpl. by rewrite Hc, normalizeString_idemp. }
  exists e. rewrite Hc, normalizeString_idemp, <-Hc in Hk.
  split_and!; [done..|]. unfold cityLabel.
  rewrite bool_decide_eq_true_2.
  - rewrite Hfind, (displayName_truthy e md); [done|].
    by eapply elem_of_locationFilters.
  - rewrite Hc, normalizeString_template. apply append_nonempty_r.
    by change ("|" +:+ ?x) with (String "|"%char x).
Qed.

End Labels.

(** X4: after a listed region is selected, the region selector shows the
    name of a region of the dataset whose key is the selected one, not the
    placeholder, provided the key is not empty. *)
Theorem region_label_after_selection (md : IMetadataResponse)
    (st : AppState) (rf : RegionFilter) :
  rf ∈ regionFilters (Some md) →
  rf_key rf ≠ "" →
  ∃ region,
    region ∈ regions (metadata md)
    ∧ normalizeString (r_name region) = rf_key rf
    ∧ regionLabel (Some md)
        (filterOptions (handleRegionChange (rf_key rf) st))
      = r_name region.
Proof.
  intros Hrf Hkey. unfold regionLabel. cbn [handleRegionChange].
  change (f_region (filterOptions (handleRegionChange (rf_key rf) st)))
    with (rf_key rf).
  rewrite bool_decide_eq_true_2 by done.
  destruct (Array_find_elem_of (λ r, rf_key r = rf_key rf)
              (regionFilters (Some md)) rf Hrf eq_refl)
    as (found & -> & Hin & Hk).
  apply list_elem_of_fmap in Hin as (region & -> & Hregion).
  exists region. simpl in *. split_and!; [done..|].
  rewrite normalized_truthy; [done|]. by rewrite Hk.
Qed.

Lemma region_label_after_selection_witness :
  ∃ region,
    region ∈ regions (metadata twoRegionMetadata)
    ∧ normalizeString (r_name region) = "region vii"
    ∧ regionLabel (Some twoRegionMetadata)
        (filterOptions (handleRegionChange "region vii" (initialState ∅)))
      = r_name region.
Proof.
  apply (region_label_after_selection twoRegionMetadata (initialState ∅)
           {| rf_name := "Region VII"; rf_key := "region vii" |}).
  - vm_compute. apply list_elem_of_further, list_elem_of_here.
  - discriminate.
Defined.


Section ProvinceLabel.
Implicit Types (md : IMetadataResponse) (fo : FilterOptions).

(** A filter whose region is the normalized name of a region offers the
    provinces of that region. *)
Lemma provinceFilters_offers md fo (region : Region) (province : Province) :
  region ∈ regions (metadata md) → province ∈ r_provinces region →
  f_region fo = normalizeString (r_name region) →
  {| pf_name := p_province province; pf_regionName := r_name region;
     pf_key := normalizeString (p_province province) |}
  ∈ provinceFilters (Some md) fo.
Proof.
  intros Hr Hp Hfo. unfold provinceFilters.
  assert ({| pf_name := p_province province; pf_regionName := r_name region;
             pf_key := normalizeString (p_province province) |}
          ∈ regions (metadata md) ≫= λ region,
              (λ province,
                 {| pf_name := p_province province;
                    pf_regionName := r_name region;
                    pf_key := normalizeString (p_province province) |})
                <$> r_provinces region) as Hall.
  { apply list_elem_of_bind. exists region. split; [|done].
    apply list_elem_of_fmap. by exists province. }
  destruct (JS.truthy (f_region fo)); [|done].
  apply list_elem_of_filter. split; [|done]. simpl.
  by rewrite Hfo, normalizeString_idemp.
Qed.

Lemma handleProvinceChange_listed md (st : AppState) (pf : ProvinceFilter) :
  pf ∈ provinceFilters (Some md) (filterOptions st) →
  ∃ owner province,
    owner ∈ regions (metadata md) ∧ province ∈ r_provinces owner
    ∧ normalizeString (p_province province) = pf_key pf
    ∧ filterOptions (handleProvinceChange (Some md) (pf_key pf) st)
      = {| f_region := normalizeString (r_name owner);
           f_province := pf_key pf; f_city := "";
           f_category := f_category (filterOptions st) |}.
Proof.
  intros (region & province & Hr & Hp & ->)%elem_of_provinceFilters.
  destruct (provinceToRegionMap_listed md region province Hr Hp)
    as (owner & province' & Ho & Hp' & Hk & Hm).
  exists owner, province'. split_and!; [done..|].
  unfold handleProvinceChange. cbn [pf_key]. rewrite Hm.
  rewrite orEmpty_region. reflexivity.
Qed.

End ProvinceLabel.

(** X5: after a listed province is selected, the province selector shows
    the name of a province of the dataset whose key is the selected one,
    not the placeholder, provided the key is not empty: the region the
    handler looked up is one under which the province list still offers
    that key. *)
Theorem province_label_after_selection (md : IMetadataResponse)
    (st : AppState) (pf : ProvinceFilter) :
  pf ∈ provinceFilters (Some md) (filterOptions st) →
  pf_key pf ≠ "" →
  ∃ region province,
    region ∈ regions (metadata md) ∧ province ∈ r_provinces region
    ∧ normalizeString (p_province province) = pf_key pf
    ∧ provinceLabel (Some md)
        (filterOptions (handleProvinceChange (Some md) (pf_key pf) st))
      = p_province province.
Proof.
  intros Hpf Hkey.
  destruct (handleProvinceChange_listed md st pf Hpf)
    as (owner & province & Ho & Hp & Hk & Hfo).
  rewrite Hfo.
  set (fo := {| f_region := normalizeString (r_name owner);
                f_province := pf_key pf; f_city := "";
                f_category := f_category (filterOptions st) |}).
  pose proof (provinceFilters_offers md fo owner province Ho Hp eq_refl)
    as Hin.
  destruct (Array_find_elem_of (λ p, pf_key p = f_province fo)
              (provinceFilters (Some md) fo) _ Hin Hk)
    as (found & Hfind & Hfound & Hfk).
  apply elem_of_provinceFilters in Hfound as (region & province' & ? & ? & ->).
  exists region, province'. simpl in Hfk.
  split_and!; [done..|].
  unfold provinceLabel. rewrite bool_decide_eq_true_2 by done.
  rewrite Hfind. cbn [pf_name]. rewrite normalized_truthy; [done|].
  by rewrite Hfk.
Qed.

Lemma province_label_after_selection_witness :
  ∃ region province,
    region ∈ regions (metadata twoRegionMetadata)
    ∧ province ∈ r_provinces region
    ∧ normalizeString (p_province province) = "cebu"
    ∧ provinceLabel (Some twoRegionMetadata)
        (filterOptions
           (handleProvinceChange (Some twoRegionMetadata) "cebu"
              (initialState ∅)))
      = p_province province.
Proof.
  apply (province_label_after_selection twoRegionMetadata (initialState ∅)
           {| pf_name := "Cebu"; pf_regionName := "Region VII";
              pf_key := "cebu" |}).
  - vm_compute. apply list_elem_of_further, list_elem_of_here.
  - discriminate.
Defined.

(** X6: after a listed city is selected, the city selector shows the
    display name of a city the list still offers under the new filter and
    whose key is the selected one, never the placeholder. *)
Theorem city_label_after_selection (md : IMetadataResponse)
    (st : AppState) (e : LocationFilter) :
  e ∈ locationFilters (Some md) (filterOptions st) →
  ∃ shown,
    shown ∈ locationFilters (Some md)
              (filterOptions (handleCityChange (Some md) (lf_key e) st))
    ∧ lf_key shown = lf_key e
    ∧ cityLabel (Some md)
        (filterOptions (handleCityChange (Some md) (lf_key e) st))
      = lf_displayName shown
    ∧ lf_displayName shown ≠ "".
Proof.
  intros He%elem_of_locationFilters.
  destruct (handleCityChange_listed md st e He)
    as (region & province & city & Hown & Hk & Hfo).
  rewrite Hfo.
  destruct (cityLabel_offered md
              {| f_region := normalizeString (r_name region);
                 f_province := normalizeString (p_province province);
                 f_city := lf_key e;
                 f_category := f_category (filterOptions st) |}
              region province city Hown eq_refl eq_refl (eq_sym Hk))
    as (shown & Hin & Hkey & Hlabel).
  exists shown. split_and!; [done..|].
  apply truthy_true, (displayName_truthy shown md).
  by eapply elem_of_locationFilters.
Qed.

Lemma city_label_after_selection_witness :
  ∃ shown,
    lf_key shown = "cebu city|cebu"
    ∧ cityLabel (Some twoRegionMetadata)
        (filterOptions
           (handleCityChange (Some twoRegionMetadata) "cebu city|cebu"
              (initialState ∅)))
      = lf_displayName shown.
Proof.
  destruct (city_label_after_selection twoRegionMetadata (initialState ∅)
              (cityEntry "Region VII" "Cebu" "Cebu City"))
    as (shown & _ & Hkey & Hlabel & _).
  - vm_compute. do 2 apply list_elem_of_further. apply list_elem_of_here.
  - by exists shown.
Defined.

Example city_label_example :
  cityLabel (Some twoRegionMetadata)
    (filterOptions
       (handleCityChange (Some twoRegionMetadata) "cebu city|cebu"
          (initialState ∅)))
  = "Cebu City (Cebu)".
Proof. by vm_compute. Qed.


(** ** The hierarchy match *)

Section HierarchyMatch.
Implicit Types (md : IMetadataResponse).

Lemma forOfReturn_None {A B} (body : A → option B) (l : list A) :
  forOfReturn body l = None ↔ ∀ x, x ∈ l → body x = None.
Proof.
  induction l as [|x l IH]; simpl.
  - split; [|done]. by intros _ y ?%elem_of_nil.
  - destruct (body x) as [r|] eqn:Hx.
    + split; [done|]. intros Hall.
      specialize (Hall x (list_elem_of_here _ _)). congruence.
    + rewrite IH. split.
      * intros Hl y [->|Hy]%elem_of_cons; auto.
      * intros Hall y Hy. apply Hall. by right.
Qed.

(** The iterations that do not return are skipped. *)
Lemma forOfReturn_first {A B} (body : A → option B) (l1 l2 : list A)
    (x : A) (r : B) :
  (∀ y, y ∈ l1 → body y = None) → body x = Some r →
  forOfReturn body (l1 ++ x :: l2) = Some r.
Proof.
  intros Hnone Hx. induction l1 as [|y l1 IH]; simpl.
  - by rewrite Hx.
  - rewrite (Hnone y) by left. apply IH. intros z Hz. apply Hnone. by right.
Qed.

Lemma Array_find_None {A} (P : A → Prop) `{∀ x, Decision (P x)}
    (l : list A) :
  Array_find P l = None ↔ ∀ x, x ∈ l → ¬ P x.
Proof.
  unfold Array_find. rewrite fmap_None, list_find_None, Forall_forall. done.
Qed.

Lemma Array_find_first {A} (P : A → Prop) `{∀ x, Decision (P x)}
    (l1 l2 : list A) (x : A) :
  (∀ y, y ∈ l1 → ¬ P y) → P x → Array_find P (l1 ++ x :: l2) = Some x.
Proof.
  intros Hnone Hx. unfold Array_find.
  assert (list_find P (l1 ++ x :: l2) = Some (length l1, x)) as ->; [|done].
  apply list_find_Some. split_and!.
  - by rewrite list_lookup_middle.
  - done.
  - intros j y Hj Hlt. apply Hnone.
    rewrite lookup_app_l in Hj by done. by eapply list_elem_of_lookup_2.
Qed.

End HierarchyMatch.

(** X7: for a reverse-geocoded name that does not normalize to the empty
    string, the hierarchy match finds nothing exactly when no city of the
    dataset normalizes to the same key; otherwise it returns the first
    match in dataset order - the first region with a match, its first
    province with a match, that province's first matching city - with the
    normalized names of that region and province and the key of that
    city. *)
Theorem hierarchy_match_is_first_match (md : IMetadataResponse)
    (cityName : string) :
  normalizeString cityName ≠ "" →
  (findLocationInMetadata md cityName = None ↔
   ∀ region province city,
     owns md region province city →
     normalizeString city ≠ normalizeString cityName)
  ∧ (∀ rs1 region rs2 ps1 province ps2 cs1 city cs2,
       regions (metadata md) = rs1 ++ region :: rs2 →
       r_provinces region = ps1 ++ province :: ps2 →
       p_cities province = cs1 ++ city :: cs2 →
       normalizeString city = normalizeString cityName →
       (∀ r p c, r ∈ rs1 → p ∈ r_provinces r → c ∈ p_cities p →
                 normalizeString c ≠ normalizeString cityName) →
       (∀ p c, p ∈ ps1 → c ∈ p_cities p →
               normalizeString c ≠ normalizeString cityName) →
       (∀ c, c ∈ cs1 → normalizeString c ≠ normalizeString cityName) →
       findLocationInMetadata md cityName
       = Some {| loc_region := normalizeString (r_name region);
                 loc_province := normalizeString (p_province province);
                 loc_city :=
                   normalizeString
                     (city +:+ "|" +:+ p_province province) |}).
Proof.
  intros Hname. split.
  - split.
    + intros Hnone region province city (Hr & Hp & Hc) Hmatch.
      unfold findLocationInMetadata in Hnone.
      rewrite forOfReturn_None in Hnone. specialize (Hnone region Hr).
      rewrite forOfReturn_None in Hnone. specialize (Hnone province Hp).
      simpl in Hnone.
      destruct (Array_find_elem_of
                  (λ c, normalizeString c = normalizeString cityName)
                  (p_cities province) city Hc Hmatch)
        as (found & Hfind & _ & Hfound).
      rewrite Hfind, normalized_truthy in Hnone; [done|]. by rewrite Hfound.
    + intros Hnone. unfold findLocationInMetadata.
      apply forOfReturn_None. intros region Hr.
      apply forOfReturn_None. intros province Hp.
      rewrite (proj2 (Array_find_None _ (p_cities province))); [done|].
      intros city Hc. by apply (Hnone region province).
  - intros rs1 region rs2 ps1 province ps2 cs1 city cs2
           Hr Hp Hc Hmatch Hrs Hps Hcs.
    unfold findLocationInMetadata. rewrite Hr.
    apply forOfReturn_first.
    + intros r Hin. apply forOfReturn_None. intros p Hpin.
      rewrite (proj2 (Array_find_None _ (p_cities p))); [done|].
      intros c Hcin. by apply (Hrs r p).
    + rewrite Hp. apply forOfReturn_first.
      * intros p Hpin.
        rewrite (proj2 (Array_find_None _ (p_cities p))); [done|].
        intros c Hcin. by apply (Hps p).
      * rewrite Hc, Array_find_first by done.
        rewrite normalized_truthy; [done|]. by rewrite Hmatch.
Qed.

Lemma hierarchy_match_is_first_match_witness :
  findLocationInMetadata twoRegionMetadata " CEBU city"
  = Some {| loc_region := "region vii"; loc_province := "cebu";
            loc_city := "cebu city|cebu" |}
  ∧ findLocationInMetadata emptyMetadata "Manila" = None.
Proof.
  split.
  - destruct (hierarchy_match_is_first_match twoRegionMetadata " CEBU city")
      as [_ Hfirst]; [discriminate|].
    apply (Hfirst
             [{| r_name := "NCR";
                 r_provinces :=
                   [{| p_province := "Metro Manila";
                       p_cities := ["Manila"; "Quezon City"] |}] |}]
             {| r_name := "Region VII";
                r_provinces :=
                  [{| p_province := "Cebu"; p_cities := ["Cebu City"] |}] |}
             [] []
             {| p_province := "Cebu"; p_cities := ["Cebu City"] |}
             [] [] "Cebu City" []); try reflexivity.
    + intros r p c Hr Hp Hc.
      apply list_elem_of_singleton in Hr as ->.
      apply list_elem_of_singleton in Hp as ->.
      apply elem_of_cons in Hc as [->|Hc]; [discriminate|].
      apply list_elem_of_singleton in Hc as ->. discriminate.
    + intros p c Hp. by apply elem_of_nil in Hp.
    + intros c Hc. by apply elem_of_nil in Hc.
  - destruct (hierarchy_match_is_first_match emptyMetadata "Manila")
      as [Hnone _]; [discriminate|].
    apply Hnone.
    intros region province city (Hr & _). by apply elem_of_nil in Hr.
Defined.


(** ** The resolver's states *)

Section ResolverStates.
Variable JSON_parse : string → option Parsed.
Implicit Types (md : IMetadataResponse) (st : AppState).

Lemma locationOf_spread (prev : FilterOptions) (location : Location) :
  locationOf (spreadLocation prev location) = location.
Proof. by destruct location. Qed.

Lemma updateLocation_inSync (location : Location) st :
  storedInSync (updateLocation location st).
Proof.
  unfold storedInSync. simpl. by rewrite lookup_insert_eq, locationOf_spread.
Qed.

Lemma JSON_stringify_truthy (location : Location) :
  JS.truthy (JSON_stringify location) = true.
Proof. apply truthy_true. by intros [=]. Qed.

(** The [catch] block never touches the error message. *)
Lemma getLocation_catch_locationError md st :
  locationError (outcomeState (getLocation_catch JSON_parse md st))
  = locationError st.
Proof.
  unfold getLocation_catch, localStorage_getItem.
  by repeat case_match.
Qed.

Lemma getLocation_try_locationError md geo response st :
  locationError
    (match getLocation_try md geo response st with
     | inl st' | inr st' => st'
     end)
  = match geo with
    | GeolocationUnsupported =>
        Some "Your browser does not support location detection"
    | PositionError code => Some (geolocationErrorMessage code)
    | Position => locationError st
    end.
Proof.
  unfold getLocation_try. destruct geo; simpl; [done..|].
  destruct response as [|[] data_city]; simpl; [done| |done].
  destruct (findLocationInMetadata md data_city); [done|].
  by destruct (getDefaultLocation md).
Qed.

End ResolverStates.

(** X8: the error message tells about geolocation only.  After a run of
    the resolver it is the message of the geolocation failure - unsupported
    browser, or the text for the error code - and it is left as it was
    whenever a position was obtained, also when reverse geocoding then
    fails or finds no match. *)
Theorem locationError_follows_geolocation
    (JSON_parse : string → option Parsed) (md : IMetadataResponse)
    (geo : GeoResult) (response : FetchResult) (st : AppState) :
  locationError (outcomeState (getLocation JSON_parse md geo response st))
  = match geo with
    | GeolocationUnsupported =>
        Some "Your browser does not support location detection"
    | PositionError code => Some (geolocationErrorMessage code)
    | Position => locationError st
    end.
Proof.
  rewrite <-(getLocation_try_locationError md geo response st).
  unfold getLocation.
  destruct (getLocation_try md geo response st) as [st'|st']; [done|].
  apply getLocation_catch_locationError.
Qed.

(** X9: with a dataset that has a first region and a first province, and a
    stored value that does not parse to [null], every run of the resolver
    settles and ends detection, whatever geolocation and reverse geocoding
    answer; once both datasets are loaded the page then leaves the loading
    view. *)
Theorem resolver_always_settles (JSON_parse : string → option Parsed)
    (md : IMetadataResponse) (geo : GeoResult) (response : FetchResult)
    (st : AppState) (defaultLocation : Location) :
  getDefaultLocation md = Some defaultLocation →
  (∀ stored, localStorage st !! "lastSavedLocation" = Some stored →
             JSON_parse stored ≠ Some ParsedNull) →
  ∃ st',
    getLocation JSON_parse md geo response st = Settled st'
    ∧ isDetectingLocation st' = false
    ∧ ∀ hs, showsLoading (Some hs) (Some md) st' = false.
Proof.
  intros Hdefault Hnull.
  assert (∀ st0, localStorage st0 = localStorage st →
            ∃ st', getLocation_catch JSON_parse md st0 = Settled st'
                   ∧ isDetectingLocation st' = false) as Hcatch.
  { intros st0 Hls. unfold getLocation_catch, localStorage_getItem.
    rewrite Hdefault, Hls.
    destruct (localStorage st !! "lastSavedLocation") as [stored|] eqn:Hs;
      [|by eexists].
    destruct (JS.truthy stored); [|by eexists].
    specialize (Hnull stored eq_refl).
    destruct (JSON_parse stored) as [[|]|]; [done|by eexists..]. }
  assert (∃ st', getLocation JSON_parse md geo response st = Settled st'
                 ∧ isDetectingLocation st' = false) as (st' & Hrun & Hdet).
  { unfold getLocation, getLocation_try.
    destruct geo; simpl; [by apply Hcatch..|].
    destruct response as [|[] data_city]; [by apply Hcatch| |by apply Hcatch].
    simpl. rewrite Hdefault.
    destruct (findLocationInMetadata md data_city); by eexists. }
  exists st'. split_and!; [done..|].
  intros hs. unfold showsLoading. rewrite Hdet.
  by rewrite !bool_decide_eq_true_2 by by eexists.
Qed.

Lemma resolver_always_settles_witness :
  ∃ st',
    getLocation readStoredLocation ncrMetadata (PositionError TIMEOUT)
      (HttpResponse false "") legacyState
    = Settled st'
    ∧ isDetectingLocation st' = false.
Proof.
  destruct (resolver_always_settles readStoredLocation ncrMetadata
              (PositionError TIMEOUT) (HttpResponse false "") legacyState
              {| loc_region := "ncr"; loc_province := "metro manila";
                 loc_city := "manila|metro manila" |})
    as (st' & Hrun & Hdet & _).
  - reflexivity.
  - intros stored Hstored. vm_compute in Hstored.
    injection Hstored as <-. discriminate.
  - by exists st'.
Defined.

(** X10: with a dataset that lists no region and nothing (or the empty
    string) stored, no run of the resolver settles: the default location
    cannot be read, the run ends in a rejection, the filter and the store
    are left as they were and detection is never marked as ended, so a page
    that was loading keeps showing the loading view. *)
Theorem empty_dataset_never_settles (JSON_parse : string → option Parsed)
    (md : IMetadataResponse) (geo : GeoResult) (response : FetchResult)
    (st : AppState) :
  regions (metadata md) = [] →
  localStorage st !! "lastSavedLocation" = None
  ∨ localStorage st !! "lastSavedLocation" = Some "" →
  ∃ st',
    getLocation JSON_parse md geo response st = Rejected st'
    ∧ isDetectingLocation st' = isDetectingLocation st
    ∧ filterOptions st' = filterOptions st
    ∧ localStorage st' = localStorage st
    ∧ (isDetectingLocation st = true →
       ∀ hs md', showsLoading hs md' st' = true).
Proof.
  intros Hregions Hstored.
  assert (getDefaultLocation md = None) as Hdefault.
  { unfold getDefaultLocation. by rewrite Hregions. }
  assert (∀ data_city, findLocationInMetadata md data_city = None) as Hfind.
  { intros data_city. unfold findLocationInMetadata. by rewrite Hregions. }
  assert (∀ st0, localStorage st0 = localStorage st →
            ∃ st', getLocation_catch JSON_parse md st0 = Rejected st'
                   ∧ isDetectingLocation st' = isDetectingLocation st0
                   ∧ filterOptions st' = filterOptions st0
                   ∧ localStorage st' = localStorage st0) as Hcatch.
  { intros st0 Hls. unfold getLocation_catch, localStorage_getItem.
    rewrite Hdefault, Hls. destruct Hstored as [-> | ->]; by eexists. }
  assert (∃ st', getLocation JSON_parse md geo response st = Rejected st'
                 ∧ isDetectingLocation st' = isDetectingLocation st
                 ∧ filterOptions st' = filterOptions st
                 ∧ localStorage st' = localStorage st)
    as (st' & Hrun & Hdet & Hfo & Hls).
  { unfold getLocation, getLocation_try.
    destruct geo; simpl;
      [edestruct Hcatch as (st' & -> & ? & ? & ?); [|by exists st']; done..|].
    destruct response as [|[] data_city]; simpl; rewrite ?Hfind, ?Hdefault;
      by apply Hcatch. }
  exists st'. split_and!; [done..|].
  intros Hloading hs md'. unfold showsLoading.
  rewrite Hdet, Hloading. apply orb_true_r.
Qed.

Lemma empty_dataset_never_settles_witness :
  ∃ st',
    getLocation readStoredLocation emptyMetadata Position
      (HttpResponse true "Manila") (initialState ∅)
    = Rejected st'
    ∧ isDetectingLocation st' = true.
Proof.
  destruct (empty_dataset_never_settles readStoredLocation emptyMetadata
              Position (HttpResponse true "Manila") (initialState ∅))
    as (st' & Hrun & Hdet & _).
  - reflexivity.
  - by left.
  - by exists st'.
Defined.

(** X11: a location that [updateLocation] persisted is what the fallback
    restores.  When live detection fails and the store holds the text
    written for a location, which the parser reads back as that location,
    the resolver settles with exactly that region, province and city in the
    filter, keeps the category, and writes nothing. *)
Theorem saved_location_is_restored (JSON_parse : string → option Parsed)
    (md : IMetadataResponse) (geo : GeoResult) (response : FetchResult)
    (st : AppState) (location : Location) :
  liveDetectionFailed geo response →
  localStorage st !! "lastSavedLocation" = Some (JSON_stringify location) →
  JSON_parse (JSON_stringify location)
  = Some (ParsedValue (Some (loc_region location))
            (Some (loc_province location)) (Some (loc_city location))) →
  (∀ st0, localStorage (updateLocation location st0) !! "lastSavedLocation"
          = Some (JSON_stringify location))
  ∧ ∃ st',
      getLocation JSON_parse md geo response st = Settled st'
      ∧ filterOptions st' = spreadLocation (filterOptions st) location
      ∧ localStorage st' = localStorage st
      ∧ storageCalls st' = storageCalls st ++ [getItem "lastSavedLocation"]
      ∧ isDetectingLocation st' = false.
Proof.
  intros Hfail Hstored Hparse. split.
  { intros st0. simpl. apply lookup_insert_eq. }
  destruct (getLocation_try_failed md geo response st Hfail)
    as (st1 & Htry & Hfo & Hls & Hcalls).
  unfold getLocation. rewrite Htry.
  unfold getLocation_catch, localStorage_getItem.
  rewrite Hls, Hstored, JSON_stringify_truthy, Hparse.
  eexists. split; [reflexivity|]. simpl.
  rewrite Hfo, Hcalls, !orEmpty_region. done.
Qed.

Lemma saved_location_is_restored_witness :
  ∃ st',
    getLocation readStoredLocation ncrMetadata GeolocationUnsupported
      FetchRejected
      (updateLocation
         {| loc_region := "ncr"; loc_province := "metro manila";
            loc_city := "quezon city|metro manila" |} (initialState ∅))
    = Settled st'
    ∧ filterOptions st'
      = {| f_region := "ncr"; f_province := "metro manila";
           f_city := "quezon city|metro manila";
           f_category := "All Hotlines" |}.
Proof.
  destruct (saved_location_is_restored readStoredLocation ncrMetadata
              GeolocationUnsupported FetchRejected
              (updateLocation
                 {| loc_region := "ncr"; loc_province := "metro manila";
                    loc_city := "quezon city|metro manila" |}
                 (initialState ∅))
              {| loc_region := "ncr"; loc_province := "metro manila";
                 loc_city := "quezon city|metro manila" |})
    as (_ & st' & Hrun & Hfo & _).
  - exact I.
  - reflexivity.
  - reflexivity.
  - by exists st'.
Defined.


(** ** Persistence of the filter *)

(** X12: the handlers keep the store in step with the filter.  Selecting a
    region or a province and the three clearing handlers make one storage
    call, the write of the new region, province and city under
    lastSavedLocation; selecting a city does the same for a key the city
    map holds and touches nothing otherwise; the category buttons change
    neither the location nor the store.  So once the stored text is that of
    the filter's location it stays so under every transition. *)
Theorem handlers_keep_store_in_sync (md : option IMetadataResponse)
    (st : AppState) :
  (∀ k, persistedBy st (handleRegionChange k st))
  ∧ (∀ k, persistedBy st (handleProvinceChange md k st))
  ∧ persistedBy st (handleClearRegion st)
  ∧ persistedBy st (handleClearProvince st)
  ∧ persistedBy st (handleClearCity st)
  ∧ (∀ k, is_Some (cityToLocationMap md !! k) →
          persistedBy st (handleCityChange md k st))
  ∧ (∀ k, cityToLocationMap md !! k = None →
          localStorage (handleCityChange md k st) = localStorage st
          ∧ storageCalls (handleCityChange md k st) = storageCalls st
          ∧ filterOptions (handleCityChange md k st) = filterOptions st)
  ∧ (∀ hotlineType,
       localStorage (onCategoryClick hotlineType st) = localStorage st
       ∧ storageCalls (onCategoryClick hotlineType st) = storageCalls st
       ∧ locationOf (filterOptions (onCategoryClick hotlineType st))
         = locationOf (filterOptions st))
  ∧ (localStorage (onViewAllHotlines st) = localStorage st
     ∧ storageCalls (onViewAllHotlines st) = storageCalls st
     ∧ locationOf (filterOptions (onViewAllHotlines st))
       = locationOf (filterOptions st))
  ∧ (storedInSync st →
     (∀ k, storedInSync (handleCityChange md k st))
     ∧ (∀ hotlineType, storedInSync (onCategoryClick hotlineType st))
     ∧ storedInSync (onViewAllHotlines st)).
Proof.
  assert (∀ location, persistedBy st (updateLocation location st))
    as Hupdate.
  { intros location. split; [apply updateLocation_inSync|].
    simpl. by rewrite locationOf_spread. }
  split; [intros k; apply Hupdate|].
  split; [intros k; apply Hupdate|].
  do 3 (split; [apply Hupdate|]).
  split.
  { intros k [loc Hloc]. unfold handleCityChange. rewrite Hloc.
    apply Hupdate. }
  split.
  { intros k Hnone. unfold handleCityChange. by rewrite Hnone. }
  split; [by intros hotlineType|].
  split; [done|].
  intros Hsync. split; [|by split].
    intros k. unfold handleCityChange.
    destruct (cityToLocationMap md !! k); [|done].
    apply updateLocation_inSync.
Qed.

(** Selecting a city from the initial state, then a category after a
    region. *)
Lemma handlers_keep_store_in_sync_witness :
  storedInSync
    (handleCityChange (Some ncrMetadata) "quezon city|metro manila"
       (initialState ∅))
  ∧ storedInSync
      (onCategoryClick "Medical"
         (handleRegionChange "ncr" (initialState ∅))).
Proof.
  destruct (handlers_keep_store_in_sync (Some ncrMetadata) (initialState ∅))
    as (Hregion & _ & _ & _ & _ & Hcity & _).
  destruct (handlers_keep_store_in_sync (Some ncrMetadata)
              (handleRegionChange "ncr" (initialState ∅)))
    as (_ & _ & _ & _ & _ & _ & _ & _ & _ & Hkept).
  split.
  - refine (proj1 (Hcity "quezon city|metro manila" _)).
    vm_compute. by eexists.
  - refine (proj1 (proj2 (Hkept _)) "Medical").
    exact (proj1 (Hregion "ncr")).
Defined.

(** ** What the resolver resolves can be shown *)

(** X13: when geolocation and reverse geocoding succeed and the city is
    matched, the resolver settles with the matched location in the filter
    and in the store, and the city selector then shows the display name of
    a listed city with the matched key; the key is one the city map holds,
    so the same city can be selected again by hand. *)
Theorem detected_city_is_shown (JSON_parse : string → option Parsed)
    (md : IMetadataResponse) (st : AppState) (data_city : string)
    (location : Location) :
  findLocationInMetadata md data_city = Some location →
  ∃ st',
    getLocation JSON_parse md Position (HttpResponse true data_city) st
    = Settled st'
    ∧ filterOptions st' = spreadLocation (filterOptions st) location
    ∧ storedInSync st'
    ∧ isDetectingLocation st' = false
    ∧ is_Some (cityToLocationMap (Some md) !! loc_city location)
    ∧ ∃ shown,
        shown ∈ locationFilters (Some md) (filterOptions st')
        ∧ lf_key shown = loc_city location
        ∧ cityLabel (Some md) (filterOptions st') = lf_displayName shown.
Proof.
  intros Hfind.
  exists (setIsDetectingLocation false (updateLocation location st)).
  split_and!.
  - unfold getLocation. by rewrite getLocation_try_detected, Hfind.
  - done.
  - apply (updateLocation_inSync location st).
  - done.
  - apply findLocationInMetadata_Some in Hfind
      as (region & province & city & Hown & _ & ->). simpl.
    destruct (cityToLocationMap_lookup_entry md
                (cityEntry (r_name region) (p_province province) city))
      as (loc & Hloc & _); [|by eexists].
    apply elem_of_allCities. by exists region, province, city.
  - apply findLocationInMetadata_Some in Hfind
      as (region & province & city & Hown & _ & ->).
    destruct (cityLabel_offered md
                (spreadLocation (filterOptions st)
                   {| loc_region := normalizeString (r_name region);
                      loc_province := normalizeString (p_province province);
                      loc_city :=
                        normalizeString
                          (city +:+ "|" +:+ p_province province) |})
                region province city Hown eq_refl eq_refl eq_refl)
      as (shown & Hin & Hkey & Hlabel).
    by exists shown.
Qed.

Lemma detected_city_is_shown_witness :
  ∃ st',
    getLocation readStoredLocation twoRegionMetadata Position
      (HttpResponse true "CEBU CITY") (initialState ∅)
    = Settled st'
    ∧ ∃ shown,
        lf_key shown = "cebu city|cebu"
        ∧ cityLabel (Some twoRegionMetadata) (filterOptions st')
          = lf_displayName shown.
Proof.
  destruct (detected_city_is_shown readStoredLocation twoRegionMetadata
              (initialState ∅) "CEBU CITY"
              {| loc_region := "region vii"; loc_province := "cebu";
                 loc_city := "cebu city|cebu" |})
    as (st' & Hrun & _ & _ & _ & _ & shown & _ & Hkey & Hlabel).
  - reflexivity.
  - exists st'. split; [exact Hrun|]. by exists shown.
Defined.

(** ** The dataset default *)

(** X14: the default location cannot be read exactly when the dataset has
    no first region or its first region has no province.  When the first
    province lists no city the default still exists, with a city key built
    from the text undefined; when it lists one, the default's city key is
    held by the city map and the city selector shows a listed city with
    that key. *)
Theorem default_location_edges (md : IMetadataResponse) :
  (getDefaultLocation md = None ↔
   regions (metadata md) = []
   ∨ ∃ region rs, regions (metadata md) = region :: rs
                  ∧ r_provinces region = [])
  ∧ (∀ region rs province ps,
       regions (metadata md) = region :: rs →
       r_provinces region = province :: ps →
       p_cities province = [] →
       getDefaultLocation md
       = Some {| loc_region := normalizeString (r_name region);
                 loc_province := normalizeString (p_province province);
                 loc_city := builtKey "undefined" (p_province province) |})
  ∧ (∀ region rs province ps city cs,
       regions (metadata md) = region :: rs →
       r_provinces region = province :: ps →
       p_cities province = city :: cs →
       ∃ defaultLocation,
         getDefaultLocation md = Some defaultLocation
         ∧ is_Some (cityToLocationMap (Some md) !! loc_city defaultLocation)
         ∧ ∀ st, ∃ shown,
             lf_key shown = loc_city defaultLocation
             ∧ cityLabel (Some md)
                 (filterOptions (updateLocation defaultLocation st))
               = lf_displayName shown).
Proof.
  split_and!.
  - unfold getDefaultLocation.
    destruct (regions (metadata md)) as [|region rs]; simpl.
    { split; [by left|done]. }
    destruct (r_provinces region) as [|province ps] eqn:Hp; simpl.
    + split; [|done]. intros _. right. by exists region, rs.
    + split; [done|]. intros [[=]|(region' & rs' & [= <- <-] & Hnil)].
      congruence.
  - intros region rs province ps Hr Hp Hc. unfold getDefaultLocation.
    rewrite Hr. simpl. rewrite Hp. simpl. rewrite Hc. simpl.
    by rewrite normalizeString_template.
  - intros region rs province ps city cs Hr Hp Hc.
    assert (owns md region province city) as Hown.
    { unfold owns. rewrite Hr, Hp, Hc. split_and!; apply list_elem_of_here. }
    eexists. split; [by apply (getDefaultLocation_first md region rs
                                 province ps city cs)|]. simpl. split.
    + destruct (cityToLocationMap_lookup_entry md
                  (cityEntry (r_name region) (p_province province) city))
        as (loc & Hloc & _); [|by eexists].
      apply elem_of_allCities. by exists region, province, city.
    + intros st.
      destruct (cityLabel_offered md
                  (spreadLocation (filterOptions st)
                     {| loc_region := normalizeString (r_name region);
                        loc_province :=
                          normalizeString (p_province province);
                        loc_city :=
                          normalizeString
                            (city +:+ "|" +:+ p_province province) |})
                  region province city Hown eq_refl eq_refl eq_refl)
        as (shown & _ & Hkey & Hlabel).
      by exists shown.
Qed.

Lemma default_location_edges_witness :
  getDefaultLocation emptyMetadata = None
  ∧ ∃ defaultLocation,
      getDefaultLocation ncrMetadata = Some defaultLocation
      ∧ is_Some (cityToLocationMap (Some ncrMetadata)
                   !! loc_city defaultLocation).
Proof.
  split.
  - apply (default_location_edges emptyMetadata). by left.
  - destruct (default_location_edges ncrMetadata) as (_ & _ & Hfirst).
    destruct (Hfirst
                {| r_name := "NCR";
                   r_provinces :=
                     [{| p_province := "Metro Manila";
                         p_cities := ["Manila"; "Quezon City"] |}] |}
                []
                {| p_province := "Metro Manila";
                   p_cities := ["Manila"; "Quezon City"] |}
                [] "Manila" ["Quezon City"])
      as (d & Hd & Hmap & _); [reflexivity..|].
    by exists d.
Defined.


(** ** The hierarchical filter, level by level *)

Section Levels.
Implicit Types (fo : FilterOptions) (h : Hotline).

Lemma locationCallback_levels fo h :
  locationCallback fo h
  = locationCallback (onlyRegion fo) h
    && locationCallback (onlyProvince fo) h
    && locationCallback (onlyCity fo) h.
Proof.
  unfold locationCallback, onlyRegion, onlyProvince, onlyCity. simpl.
  destruct (JS.truthy (f_region fo) && _); [done|].
  destruct (JS.truthy (f_province fo) && _); [done|].
  by destruct (JS.truthy (f_city fo)).
Qed.

Lemma selectedHotlines_twice (hs : list Hotline) fo1 fo2 :
  selectedHotlines (selectedHotlines hs fo1) fo2
  = filter (λ h, locationCallback fo1 h && locationCallback fo2 h) hs.
Proof.
  unfold selectedHotlines. rewrite list_filter_filter.
  apply list_filter_iff. intros h. rewrite andb_True. tauto.
Qed.

Lemma locationCallback_unset fo h :
  f_region fo = "" → f_province fo = "" → f_city fo = "" →
  locationCallback fo h = true.
Proof. unfold locationCallback. by intros -> -> ->. Qed.

End Levels.

(** X15: the hierarchical filter is the three levels applied one after the
    other.  Filtering by region, then by province, then by city gives the
    list that the filter with all three set gives in one pass, and so does
    the opposite order. *)
Theorem location_filter_is_sequential (hs : list Hotline)
    (fo : FilterOptions) :
  selectedHotlines hs fo
  = selectedHotlines
      (selectedHotlines (selectedHotlines hs (onlyRegion fo))
         (onlyProvince fo))
      (onlyCity fo)
  ∧ selectedHotlines hs fo
    = selectedHotlines
        (selectedHotlines (selectedHotlines hs (onlyCity fo))
           (onlyProvince fo))
        (onlyRegion fo).
Proof.
  split.
  - rewrite selectedHotlines_twice. unfold selectedHotlines at 2.
    rewrite list_filter_filter. apply list_filter_iff. intros h.
    rewrite (locationCallback_levels fo h), !andb_True. tauto.
  - rewrite selectedHotlines_twice. unfold selectedHotlines at 2.
    rewrite list_filter_filter. apply list_filter_iff. intros h.
    rewrite (locationCallback_levels fo h), !andb_True. tauto.
Qed.

(** ** Filtering and sorting *)

Section FilterSort.
Context {A : Type} (compareFn : A → A → Z).
Hypothesis compare_total : ∀ a b, 0 < compareFn a b → compareFn b a ≤ 0.
Hypothesis compare_trans :
  ∀ a b c, compareFn a b ≤ 0 → compareFn b c ≤ 0 → compareFn a c ≤ 0.
Context (P : A → Prop) `{∀ x, Decision (P x)}.

Lemma sort_insert_filter_out (x : A) (l : list A) :
  ¬ P x → filter P (JS.sort_insert compareFn x l) = filter P l.
Proof.
  intros Hx. induction l as [|y l IH]; simpl.
  - by rewrite filter_cons_False.
  - destruct (compareFn x y <=? 0).
    + by rewrite filter_cons_False.
    + by rewrite !(filter_cons _ y), IH.
Qed.

Lemma sort_insert_filter_in (x : A) (l : list A) :
  StronglySorted (λ a b, compareFn a b ≤ 0) l → P x →
  filter P (JS.sort_insert compareFn x l)
  = JS.sort_insert compareFn x (filter P l).
Proof.
  intros Hl Hx. induction Hl as [|y l Hl IH Hy]; simpl.
  - by rewrite filter_cons_True.
  - destruct (Z.leb_spec (compareFn x y) 0) as [Hxy|Hxy].
    + rewrite filter_cons_True by done.
      rewrite (filter_cons _ y). destruct (decide (P y)) as [HPy|HPy].
      * simpl. by rewrite (proj2 (Z.leb_le _ _) Hxy).
      * destruct (filter P l) as [|z f] eqn:Hf; [done|]. simpl.
        assert (z ∈ l) as Hz.
        { assert (z ∈ filter P l) as Hin by (rewrite Hf; left).
          by apply list_elem_of_filter in Hin as [_ ?]. }
        rewrite Forall_forall in Hy.
        by rewrite (proj2 (Z.leb_le _ _)
                      (compare_trans x y z Hxy (Hy z Hz))).
    + rewrite !(filter_cons _ y), IH.
      destruct (decide (P y)); [|done]. simpl.
      by rewrite (proj2 (Z.leb_gt _ _) Hxy).
Qed.

(** Sorting and then filtering is filtering and then sorting. *)
Lemma Array_sort_filter_comm (l : list A) :
  filter P (JS.Array_sort compareFn l)
  = JS.Array_sort compareFn (filter P l).
Proof.
  induction l as [|x l IH]; [done|].
  change (JS.Array_sort compareFn (x :: l))
    with (JS.sort_insert compareFn x (JS.Array_sort compareFn l)).
  rewrite filter_cons. destruct (decide (P x)) as [Hx|Hx].
  - rewrite sort_insert_filter_in;
      [|by apply Array_sort_sorted|done].
    by rewrite IH.
  - by rewrite sort_insert_filter_out.
Qed.

End FilterSort.

(** X16: the filters never reorder.  For a category among the five named
    values the rendered list is the whole dataset, sorted, with the
    hotlines the filters drop removed; in particular the list under a
    category filter is the list under All Hotlines with the other
    categories removed, in the same order. *)
Theorem filters_never_reorder (sortKey : string → string)
    (hs : list Hotline) (fo : FilterOptions) :
  f_category fo ∈ namedCategories_spec →
  sortedSelectedHotlines sortKey hs fo
  = Some (filter (λ h, kept fo h)
            (JS.Array_sort (compareHotlines sortKey) hs))
  ∧ ∃ outAll,
      sortedSelectedHotlines sortKey hs (setCategory "All Hotlines" fo)
      = Some outAll
      ∧ sortedSelectedHotlines sortKey hs fo
        = Some (filter (λ h, categoryKeeps fo h) outAll).
Proof.
  intros Hc.
  pose proof (Array_sort_filter_comm (compareHotlines sortKey)
                (compareHotlines_total sortKey)
                (compareHotlines_trans sortKey)) as Hcomm.
  assert (sortedSelectedHotlines sortKey hs fo
          = Some (filter (λ h, kept fo h)
                    (JS.Array_sort (compareHotlines sortKey) hs))) as Hrun.
  { rewrite sortedSelectedHotlines_named by done. f_equal.
    symmetry. apply Hcomm. }
  split; [done|].
  exists (filter (λ h, kept (setCategory "All Hotlines" fo) h)
            (JS.Array_sort (compareHotlines sortKey) hs)).
  split.
  - rewrite sortedSelectedHotlines_named by apply list_elem_of_here.
    f_equal. symmetry. apply Hcomm.
  - rewrite Hrun. f_equal. rewrite list_filter_filter.
    apply list_filter_iff. intros h. unfold kept.
    change (locationCallback (setCategory "All Hotlines" fo) h)
      with (locationCallback fo h).
    change (categoryKeeps (setCategory "All Hotlines" fo) h) with true.
    rewrite !andb_True. simpl. tauto.
Qed.

(** Emergency Hotlines against All Hotlines on four hotlines. *)
Lemma filters_never_reorder_witness :
  ∃ outAll,
    sortedSelectedHotlines caselessKey
      [cebuHotline; lowerHotline; manilaHotline; upperHotline]
      initialFilterOptions
    = Some outAll
    ∧ sortedSelectedHotlines caselessKey
        [cebuHotline; lowerHotline; manilaHotline; upperHotline]
        (setCategory "Emergency Hotlines" initialFilterOptions)
      = Some (filter
                (λ h, categoryKeeps
                        (setCategory "Emergency Hotlines"
                           initialFilterOptions) h) outAll).
Proof.
  destruct (filters_never_reorder caselessKey
              [cebuHotline; lowerHotline; manilaHotline; upperHotline]
              (setCategory "Emergency Hotlines" initialFilterOptions))
    as (_ & outAll & Hall & Hcat).
  - apply list_elem_of_further, list_elem_of_here.
  - exists outAll. split; [exact Hall|exact Hcat].
Defined.

(** ** The location scope indicator *)

(** X17: the scope indicator is shown exactly when region, province and city
    are all unset, and it then counts the rendered hotlines; in that case
    the location filter has dropped nothing, so under All Hotlines the
    count is the size of the dataset. *)
Theorem scope_indicator_counts_dataset (sortKey : string → string)
    (hs out : list Hotline) (fo : FilterOptions) :
  sortedSelectedHotlines sortKey hs fo = Some out →
  (is_Some (scopeIndicator fo out) ↔
   f_region fo = "" ∧ f_province fo = "" ∧ f_city fo = "")
  ∧ (is_Some (scopeIndicator fo out) →
     scopeIndicator fo out = Some (length out)
     ∧ selectedHotlines hs fo = hs
     ∧ (f_category fo = "All Hotlines" →
        out ≡ₚ hs ∧ scopeIndicator fo out = Some (length hs))).
Proof.
  intros Hrun.
  assert (is_Some (scopeIndicator fo out) ↔
          f_region fo = "" ∧ f_province fo = "" ∧ f_city fo = "") as Hshown.
  { unfold scopeIndicator.
    destruct (JS.truthy (f_region fo)) eqn:Hr,
             (JS.truthy (f_province fo)) eqn:Hp,
             (JS.truthy (f_city fo)) eqn:Hc; simpl;
      rewrite ?truthy_true, ?truthy_false in *;
      split; try (intros [? [=]]); try (by intros (? & ? & ?));
      try (by eexists); done. }
  split; [done|]. intros (Hr & Hp & Hc)%Hshown.
  assert (selectedHotlines hs fo = hs) as Hsel.
  { unfold selectedHotlines. apply filter_all, Forall_forall.
    intros h _. by rewrite locationCallback_unset. }
  assert (scopeIndicator fo out = Some (length out)) as Hcount.
  { unfold scopeIndicator. by rewrite Hr, Hp, Hc. }
  split_and!; [done..|]. intros Hall.
  assert (out ≡ₚ hs) as Hperm.
  { unfold sortedSelectedHotlines, categorySelected in Hrun.
    rewrite Hsel, Hall in Hrun. simpl in Hrun. injection Hrun as <-.
    apply Array_sort_Permutation. }
  split; [done|]. by rewrite Hcount, Hperm.
Qed.

(** Two hotlines, nothing selected. *)
Lemma scope_indicator_counts_dataset_witness :
  scopeIndicator initialFilterOptions [manilaHotline; cebuHotline]
  = Some 2%nat.
Proof.
  destruct (scope_indicator_counts_dataset caselessKey
              [manilaHotline; cebuHotline] [manilaHotline; cebuHotline]
              initialFilterOptions) as [Hshown Hcount].
  - by vm_compute.
  - destruct Hcount as (_ & _ & Hall).
    + apply Hshown. done.
    + by destruct Hall as [_ ->].
Defined.


(** ** A listed city and the hotlines it selects *)

Section ListedCity.

Lemma toLowerChar_bar (d : ascii) :
  bool_decide (JS.toLowerChar d = "|"%char) = bool_decide (d = "|"%char).
Proof. by destruct d as [[] [] [] [] [] [] [] []]. Qed.

Lemma includes_toLowerCase_bar (s : string) :
  JS.includes "|" (JS.toLowerCase s) = JS.includes "|" s.
Proof.
  induction s as [|d s IH]; [done|]. simpl.
  by rewrite toLowerChar_bar, IH.
Qed.

Lemma includes_trimStart (c : ascii) (s : string) :
  JS.includes c s = false → JS.includes c (JS.trimStart s) = false.
Proof.
  induction s as [|d s IH]; [done|]. simpl.
  intros [Hd Hs]%orb_false_elim.
  destruct (JS.isWhiteSpace d); [by apply IH|]. simpl. by rewrite Hd, Hs.
Qed.

Lemma includes_trimEnd (c : ascii) (s : string) :
  JS.includes c s = false → JS.includes c (JS.trimEnd s) = false.
Proof.
  induction s as [|d s IH]; [done|]. simpl.
  intros [Hd Hs]%orb_false_elim. specialize (IH Hs).
  destruct (JS.trimEnd s) as [|e t].
  - destruct (JS.isWhiteSpace d); [done|]. simpl. by rewrite Hd.
  - change (JS.includes c (String d (String e t)))
      with (bool_decide (d = c) || JS.includes c (String e t)).
    by rewrite Hd, IH.
Qed.

(** A string of blanks only has nothing left after [trimEnd]. *)
Lemma trimEnd_blank (s : string) :
  JS.trimStart s = "" → JS.trimEnd s = "".
Proof.
  induction s as [|d s IH]; [done|]. simpl.
  destruct (JS.isWhiteSpace d); [|done]. intros Hs. by rewrite IH.
Qed.

Lemma trimStart_empty_of_trim (s : string) :
  JS.trim s = "" → JS.trimEnd s = "".
Proof.
  unfold JS.trim. rewrite <-trimStart_trimEnd_comm. intros Hs.
  apply trimEnd_blank in Hs. by rewrite trimEnd_idemp in Hs.
Qed.

Lemma builtKey_parts (cityName provinceName : string) :
  normalizeString (cityName +:+ "|" +:+ provinceName)
  = JS.trimStart (JS.toLowerCase cityName) +:+ "|"
    +:+ JS.trimEnd (JS.toLowerCase provinceName) +:+ "".
Proof. by rewrite append_empty_r, normalizeString_template. Qed.

End ListedCity.

(** X18: selecting a listed city selects the hotlines of that city.  When
    the city of the filter is the key the index gives a city whose name and
    province contain no separator, the city level keeps exactly the
    hotlines whose normalized city and normalized province equal those of
    the listed city, blanks around the dataset names notwithstanding; when
    the province normalizes to the empty string, it keeps the hotlines of
    that normalized city in any province. *)
Theorem listed_city_selects_its_hotlines (hs : list Hotline)
    (fo : FilterOptions) (h : Hotline)
    (regionName cityName provinceName : string) :
  f_city fo = lf_key (cityEntry regionName provinceName cityName) →
  JS.includes "|" cityName = false →
  JS.includes "|" provinceName = false →
  (normalizeString provinceName ≠ "" →
   (h ∈ selectedHotlines hs fo ↔
    h ∈ hs ∧ regionProvinceOk fo h
    ∧ normalizeString (city h) = normalizeString cityName
    ∧ normalizeString (province h) = normalizeString provinceName))
  ∧ (normalizeString provinceName = "" →
     (h ∈ selectedHotlines hs fo ↔
      h ∈ hs ∧ regionProvinceOk fo h
      ∧ normalizeString (city h) = normalizeString cityName)).
Proof.
  intros Hkey Hc Hp. cbn [lf_key cityEntry] in Hkey.
  rewrite builtKey_parts in Hkey.
  assert (f_city fo ≠ "") as Hset.
  { rewrite Hkey. apply append_nonempty_r.
    by change ("|" +:+ ?x) with (String "|"%char x). }
  assert (h ∈ selectedHotlines hs fo ↔ h ∈ hs ∧ locationCallback fo h)
    as Hkept.
  { unfold selectedHotlines. rewrite list_elem_of_filter. tauto. }
  rewrite (locationCallback_city fo h Hset), Hkey in Hkept.
  rewrite extract_composite in Hkept.
  2: { by rewrite includes_trimStart; rewrite ?includes_toLowerCase_bar. }
  2: { by rewrite includes_trimEnd; rewrite ?includes_toLowerCase_bar. }
  2: { by left. }
  simpl in Hkept.
  rewrite normalizeString_trimStart, normalizeString_toLowerCase,
    normalizeString_trimEnd, normalizeString_toLowerCase in Hkept.
  split; intros Hprov; rewrite Hkept.
  - assert (JS.trimEnd (JS.toLowerCase provinceName) ≠ "") as Hne.
    { intros Hempty. apply Hprov.
      by rewrite <-normalizeString_toLowerCase, <-normalizeString_trimEnd,
           Hempty. }
    tauto.
  - assert (JS.trimEnd (JS.toLowerCase provinceName) = "") as Hempty.
    { by apply trimStart_empty_of_trim. }
    tauto.
Qed.

(** The key of Manila, Metro Manila, written with blanks in the dataset. *)
Lemma listed_city_selects_its_hotlines_witness :
  manilaHotline
  ∈ selectedHotlines [manilaHotline; cebuHotline]
      (cityFilter (lf_key (cityEntry "NCR" " Metro Manila" "Manila ")))
  ∧ cebuHotline
    ∉ selectedHotlines [manilaHotline; cebuHotline]
        (cityFilter (lf_key (cityEntry "NCR" " Metro Manila" "Manila "))).
Proof.
  split.
  - destruct (listed_city_selects_its_hotlines [manilaHotline; cebuHotline]
                (cityFilter (lf_key (cityEntry "NCR" " Metro Manila" "Manila ")))
                manilaHotline "NCR" "Manila " " Metro Manila")
      as [Hboth _]; [reflexivity..|].
    apply Hboth; [discriminate|].
    split_and!; [apply list_elem_of_here|split; by left|reflexivity..].
  - destruct (listed_city_selects_its_hotlines [manilaHotline; cebuHotline]
                (cityFilter (lf_key (cityEntry "NCR" " Metro Manila" "Manila ")))
                cebuHotline "NCR" "Manila " " Metro Manila")
      as [Hboth _]; [reflexivity..|].
    rewrite Hboth by discriminate. intros (_ & _ & _ & Hprovince).
    discriminate Hprovince.
Defined.

(** ** The precache manifest *)

Section PrecacheFacts.
Variable md5hex : string → string.
Variable path_join : string → string → string.
Implicit Types fs : gmap string string.

Lemma manifest_fold fs (publicDir : string) (files : list string) :
  ∃ manifest,
    foldl (manifestStep md5hex path_join fs publicDir) (Some ∅) files
    = Some manifest
    ∧ ∀ url,
        manifest !! url
        = if bool_decide (url ∈ files)
          then Some (md5hex <$> fs !! path_join publicDir url)
          else None.
Proof.
  induction files as [|file files IH] using rev_ind.
  - exists ∅. split; [done|]. intros url. rewrite lookup_empty.
    by rewrite bool_decide_eq_false_2 by apply not_elem_of_nil.
  - destruct IH as (manifest & Hfold & Hlookup).
    rewrite foldl_snoc, Hfold. unfold manifestStep. simpl.
    exists (<[file := md5hex <$> fs !! path_join publicDir file]> manifest).
    split.
    + unfold generateFileHash.
      destruct (fs !! path_join publicDir file) as [content|] eqn:Hfile.
      * by rewrite bool_decide_eq_true_2 by by eexists.
      * by rewrite bool_decide_eq_false_2 by by intros [? [=]].
    + intros url. destruct (decide (file = url)) as [->|Hne].
      * rewrite lookup_insert_eq, bool_decide_eq_true_2; [done|].
        rewrite elem_of_app, list_elem_of_singleton. by right.
      * rewrite lookup_insert_ne, Hlookup by done.
        rewrite (bool_decide_ext (url ∈ files ++ [file]) (url ∈ files));
          [done|].
        rewrite elem_of_app, list_elem_of_singleton.
        split; [intros [?|?]; [done|congruence]|by left].
Qed.

End PrecacheFacts.

(** X19: the manifest script never fails on a missing file and never leaves
    a key out.  It returns a manifest whose keys are exactly the three
    precached URLs; the value of each is the hash of the file under the
    public directory, or null when that file does not exist.  Every
    revision the service worker reads from the manifest is therefore
    defined: the hash of the file, or null. *)
Theorem precache_manifest_covers_service_worker (md5hex : string → string)
    (path_join : string → string → string) (fs : gmap string string)
    (publicDir : string) :
  ∃ manifest,
    generatePrecacheManifest md5hex path_join fs publicDir = Some manifest
    ∧ (∀ url, is_Some (manifest !! url) ↔ url ∈ filesToCache)
    ∧ (∀ url, url ∈ filesToCache →
              manifest !! url
              = Some (md5hex <$> fs !! path_join publicDir url))
    ∧ (∀ e, e ∈ addToPrecacheList manifest →
            pe_url e ∈ filesToCache
            ∧ pe_revision e
              = Some (md5hex <$> fs !! path_join publicDir (pe_url e))).
Proof.
  destruct (manifest_fold md5hex path_join fs publicDir filesToCache)
    as (manifest & Hrun & Hlookup).
  exists manifest.
  assert (∀ url, url ∈ filesToCache →
            manifest !! url
            = Some (md5hex <$> fs !! path_join publicDir url)) as Hin.
  { intros url Hurl. by rewrite Hlookup, bool_decide_eq_true_2. }
  split_and!; [done| |done|].
  - intros url. rewrite Hlookup. case_bool_decide; [|by split; [intros [? [=]]|]].
    split; [done|]. by eexists.
  - intros e He. unfold addToPrecacheList in He.
    repeat (apply elem_of_cons in He as [->|He]);
      [..|by apply elem_of_nil in He]; cbn [pe_url pe_revision];
      (split; [|apply Hin]); unfold filesToCache;
      rewrite !elem_of_cons; tauto.
Qed.

(** On a disk without the logo, its entry is null and the data files have
    hashes. *)
Example precache_manifest_example :
  (λ manifest,
     (manifest !! "/bettergov-horizontal-logo.png",
      manifest !! "/data/metadata.json"))
    <$> generatePrecacheManifest JS.toLowerCase (λ a b, a +:+ b)
          exampleDisk "public"
  = Some (Some None, Some (Some "{}")).
Proof. by vm_compute. Qed.
